(** * myshell: a shallow embedding of [main.cpp]

    The development follows the source file top-down: the string helpers,
    the [Tokenizer] class, [splitIntoPipeline], [extractRedirections],
    the [Builtins] and [Executor] classes and the read loop of [main].

    Strings are [String.string] (a [std::string] of 8-bit characters),
    vectors are lists, and everything the program asks of the operating
    system (environment, working directory, pipes, processes) goes through
    an explicit [OS] record of outcomes and a [World] that is threaded
    through the calls. *)

From Stdlib Require Import Bool Arith ZArith List Ascii String Lia.
Import ListNotations.

Local Open Scope string_scope.
Local Open Scope list_scope.

(* ================================================================= *)
(** ** Characters and strings *)

(** The double quote character, code 34. *)
Definition dquote : ascii := ascii_of_nat 34.
(** The single quote character, code 39. *)
Definition squote : ascii := ascii_of_nat 39.
(** The backslash character, code 92. *)
Definition backslash : ascii := ascii_of_nat 92.

(** [std::isspace((unsigned char)c)] in the default "C" locale:
    space, and the control characters \t \n \v \f \r (codes 9 to 13). *)
Definition isspace (c : ascii) : bool :=
  let n := nat_of_ascii c in
  ((n =? 32) || ((9 <=? n) && (n <=? 13)))%nat.

(** [s[i]] for an index inside the string (['\0'] is returned outside,
    where the source never reads). *)
Definition char_at (s : string) (i : nat) : ascii :=
  match String.get i s with
  | Some c => c
  | None => zero
  end.

(** [out.push_back(c)] *)
Definition push_back (out : string) (c : ascii) : string :=
  (out ++ String c EmptyString)%string.

(** First loop of [trim]:
    [while (a < s.size() && isspace(s[a])) ++a;]
    [n] counts the iterations that are left at most, [s.size() - a]. *)
Fixpoint trim_left (s : string) (a n : nat) : nat :=
  match n with
  | 0 => a
  | S n' =>
      if (a <? String.length s)%nat && isspace (char_at s a)
      then trim_left s (S a) n'
      else a
  end.

(** Second loop of [trim]:
    [while (b > a && isspace(s[b - 1])) --b;] *)
Fixpoint trim_right (s : string) (a b : nat) : nat :=
  match b with
  | 0 => 0
  | S b' =>
      if (a <? b)%nat && isspace (char_at s b')
      then trim_right s a b'
      else b
  end.

Definition trim (s : string) : string :=
  let a := trim_left s 0 (String.length s) in
  let b := trim_right s a (String.length s) in
  substring a (b - a) s.

(** [s.empty()] *)
Definition str_empty (s : string) : bool :=
  match s with
  | EmptyString => true
  | String _ _ => false
  end.

(* ================================================================= *)
(** ** Tokens *)

Inductive TokenType := Word | Op.

Record Token := mkToken { type : TokenType; text : string }.

Definition TokenType_eqb (a b : TokenType) : bool :=
  match a, b with
  | Word, Word | Op, Op => true
  | _, _ => false
  end.

(* ================================================================= *)
(** ** The Tokenizer class

    The object's state is the pair [(m_line, m_i)].  The cursor [m_i] only
    moves forward and every member reads [m_line] from [m_i] on, so the
    state is kept as the unread rest of the line, [m_line.substr(m_i)]. *)

Module Tokenizer.

(** [m_i >= m_line.size()] *)
Definition eof (rest : string) : bool := str_empty rest.

(** [eof() ? '\0' : m_line[m_i]] *)
Definition peek (rest : string) : ascii :=
  match rest with
  | EmptyString => zero
  | String c _ => c
  end.

(** [eof() ? '\0' : m_line[m_i++]] *)
Definition get (rest : string) : ascii * string :=
  match rest with
  | EmptyString => (zero, EmptyString)
  | String c r => (c, r)
  end.

(** [while (!eof() && isspace(peek())) ++m_i;] *)
Fixpoint skipWhitespace (rest : string) : string :=
  match rest with
  | EmptyString => rest
  | String c r => if isspace c then skipWhitespace r else rest
  end.

Definition isOperatorStart (c : ascii) : bool :=
  Ascii.eqb c "|" || Ascii.eqb c ">" || Ascii.eqb c "<"
  || Ascii.eqb c "&" || Ascii.eqb c ";".

Definition readOperator (rest : string) : string * string :=
  let (c, r) := get rest in
  if Ascii.eqb c ">" then
    if negb (eof r) && Ascii.eqb (peek r) ">"
    then (">>", snd (get r))
    else (">", r)
  else (String c EmptyString, r).

(** Inner loop of a single-quoted span:
    [while (!eof() && peek() != '\'') out.push_back(get());] *)
Fixpoint readSingle (rest : string) (out : string) : string * string :=
  match rest with
  | EmptyString => (out, rest)
  | String c r =>
      if Ascii.eqb c squote then (out, rest)
      else readSingle r (push_back out c)
  end.

(** Inner loop of a double-quoted span.  An iteration takes one
    character [d], and a second one when [d] is a backslash that is not
    the last character of the line. *)
Fixpoint readDouble (rest : string) (out : string) : string * string :=
  match rest with
  | EmptyString => (out, rest)
  | String d r =>
      if Ascii.eqb d dquote then (out, rest)
      else if Ascii.eqb d backslash then
        match r with
        | EmptyString => readDouble r (push_back out d)
        | String e r' => readDouble r' (push_back out e)
        end
      else readDouble r (push_back out d)
  end.

(** [if (!eof() && peek() == q) get();] : consume the closing quote. *)
Definition closeQuote (q : ascii) (rest : string) : string :=
  if negb (eof rest) && Ascii.eqb (peek rest) q then snd (get rest) else rest.

(** The [while (!eof())] loop of [readWord].  Every iteration that does
    not break consumes at least one character; [fuel] bounds the number
    of iterations and [None] means it ran out. *)
Fixpoint readWord_loop (fuel : nat) (rest : string) (out : string)
  : option (string * string) :=
  match fuel with
  | 0 => None
  | S fuel' =>
      if eof rest then Some (out, rest)
      else
        let c := peek rest in
        if isspace c || isOperatorStart c then Some (out, rest)
        else if Ascii.eqb c squote then
          let r := snd (get rest) in
          let (out', r') := readSingle r out in
          readWord_loop fuel' (closeQuote squote r') out'
        else if Ascii.eqb c dquote then
          let r := snd (get rest) in
          let (out', r') := readDouble r out in
          readWord_loop fuel' (closeQuote dquote r') out'
        else if Ascii.eqb c backslash then
          let r := snd (get rest) in
          if negb (eof r)
          then readWord_loop fuel' (snd (get r)) (push_back out (fst (get r)))
          else readWord_loop fuel' r out
        else readWord_loop fuel' (snd (get rest)) (push_back out (fst (get rest)))
  end.

Definition readWord (fuel : nat) (rest : string) : option (string * string) :=
  readWord_loop fuel rest EmptyString.

(** The loop of [tokenize]:
    [while (skipWhitespace(), !eof()) { ... out.push_back(...) }] *)
Fixpoint tokenize_loop (fuel : nat) (rest : string) (out : list Token)
  : option (list Token) :=
  match fuel with
  | 0 => None
  | S fuel' =>
      let rest := skipWhitespace rest in
      if eof rest then Some out
      else
        let c := peek rest in
        if isOperatorStart c then
          let (t, r) := readOperator rest in
          tokenize_loop fuel' r (out ++ [mkToken Op t])
        else
          match readWord (S (String.length rest)) rest with
          | Some (t, r) => tokenize_loop fuel' r (out ++ [mkToken Word t])
          | None => None
          end
  end.

(** One unit of fuel per character, and one for the last test. *)
Definition tokenize_fuel (line : string) : option (list Token) :=
  tokenize_loop (S (String.length line)) line [].

(** [Tokenizer(line).tokenize()].  The fuel above always suffices
    ([tokenize_fuel_total] below), so the default is never taken. *)
Definition tokenize (line : string) : list Token :=
  match tokenize_fuel line with
  | Some toks => toks
  | None => []
  end.

End Tokenizer.

(* ================================================================= *)
(** ** splitIntoPipeline *)

Definition Words := list string.

(** [v.empty()] for a vector. *)
Definition vec_empty {A : Type} (v : list A) : bool :=
  match v with
  | [] => true
  | _ :: _ => false
  end.

(** One iteration of the [for] loop over the tokens, on the two locals
    [pipeline] and [current]. *)
Definition split_step (st : list Words * Words) (t : Token)
  : list Words * Words :=
  let (pipeline, current) := st in
  if TokenType_eqb (type t) Op && (text t =? "|")%string then
    (pipeline ++ [current], [])
  else if TokenType_eqb (type t) Word then
    (pipeline, current ++ [text t])
  else
    (pipeline, current).

Definition split_loop (tokens : list Token) (st : list Words * Words)
  : list Words * Words :=
  fold_left split_step tokens st.

Definition splitIntoPipeline (tokens : list Token) : list Words :=
  let (pipeline, current) := split_loop tokens ([], []) in
  if negb (vec_empty current) then pipeline ++ [current] else pipeline.

(* ================================================================= *)
(** ** extractRedirections *)

Record RedirectionInfo := mkRedir {
  stdin_file : string;
  stdout_file : string;
  stdout_append : bool
}.

(** The default member initialisers of the struct. *)
Definition no_redirection : RedirectionInfo :=
  mkRedir EmptyString EmptyString false.

(** The [for] loop over [cmdTokens].  [++i] inside the body skips the
    file name, which is the head of the rest here. *)
Fixpoint extract_loop (cmdTokens : Words) (argv : Words) (r : RedirectionInfo)
  : Words * RedirectionInfo :=
  match cmdTokens with
  | [] => (argv, r)
  | t :: rest =>
      if (t =? "<")%string then
        match rest with
        | f :: rest' =>
            extract_loop rest' argv
              (mkRedir (trim f) (stdout_file r) (stdout_append r))
        | [] => extract_loop rest argv r
        end
      else if (t =? ">")%string || (t =? ">>")%string then
        let append := (t =? ">>")%string in
        match rest with
        | f :: rest' =>
            extract_loop rest' argv (mkRedir (stdin_file r) (trim f) append)
        | [] => extract_loop rest argv r
        end
      else extract_loop rest (argv ++ [t]) r
  end.

Definition extractRedirections (cmdTokens : Words) : Words * RedirectionInfo :=
  extract_loop cmdTokens [] no_redirection.

(* ================================================================= *)
(** ** The operating system and the interpreter's world *)

(** The flag words the source passes to [open]: [O_RDONLY], or
    [O_WRONLY | O_CREAT | (append ? O_APPEND : O_TRUNC)] with mode 0644. *)
Inductive OpenFlags :=
| RdOnly
| WrCreat (append : bool).

(** Everything the program leaves to the system.  Calls that can fail
    return [None] (or [false]) for the failure; [pipe] and [fork] are
    numbered by the calls made so far. *)
Record OS := mkOS {
  getenv : string -> option string;
  (** [fs::current_path(p)] asked from a working directory: the new
      working directory, or the [what()] of the exception thrown. *)
  set_current_path : string -> string -> string + string;
  sys_pipe : nat -> option (Z * Z);
  (** [fork] as the parent sees it: the child's pid, or [None] for -1. *)
  sys_fork : nat -> option Z;
  (** [waitpid(pid, &status, 0)]: the status stored, or [None] for -1,
      in which case nothing is stored. *)
  sys_waitpid : Z -> option Z;
  sys_dup2 : Z -> Z -> bool;
  sys_open : string -> OpenFlags -> option Z;
  (** [execvp]: [true] when the program image is replaced, [false] when
      the call returns. *)
  sys_execvp : string -> Words -> bool;
  (** The status macros of <sys/wait.h>. *)
  WIFEXITED : Z -> bool;
  WEXITSTATUS : Z -> Z;
  (** [fs::current_path()] asked in a working directory: [None] when it
      returns that directory, or the [what()] of the exception it throws
      (the directory has been removed, say). *)
  current_path_error : string -> option string
}.

(** What is written to the error stream: text through [std::cerr], or a
    call of [perror] with its prefix (the system adds the error text). *)
Inductive Diag :=
| Cerr (msg : string)
| Perror (pfx : string).

(** What a child does between [fork] and the end of the child branch. *)
Inductive Syscall :=
| Dup2 (oldfd newfd : Z)
| Close (fd : Z)
| Open (path : string) (flags : OpenFlags)
| PerrorC (pfx : string)
| Execvp (file : string) (argv : Words).

Inductive ChildEnd :=
| Exits (code : Z)
| Execs (file : string) (argv : Words).

Record Process := mkProcess {
  pid : Z;
  stage : nat;
  calls : list Syscall;
  ending : ChildEnd
}.

Record World := mkWorld {
  cwd : string;
  cout : string;
  cerr : list Diag;
  (** pipe descriptors open in the interpreter process *)
  open_fds : list Z;
  pipe_calls : nat;
  fork_calls : nat;
  (** the children created so far, oldest first *)
  spawned : list Process;
  (** the pids collected by a successful [waitpid] *)
  reaped : list Z
}.

Definition nl : string := String (ascii_of_nat 10) EmptyString.

Definition STDIN_FILENO : Z := 0.
Definition STDOUT_FILENO : Z := 1.

Definition write_cout (s : string) (w : World) : World :=
  mkWorld (cwd w) (cout w ++ s)%string (cerr w) (open_fds w)
          (pipe_calls w) (fork_calls w) (spawned w) (reaped w).

Definition write_diag (d : Diag) (w : World) : World :=
  mkWorld (cwd w) (cout w) (cerr w ++ [d]) (open_fds w)
          (pipe_calls w) (fork_calls w) (spawned w) (reaped w).

Definition set_cwd (d : string) (w : World) : World :=
  mkWorld d (cout w) (cerr w) (open_fds w)
          (pipe_calls w) (fork_calls w) (spawned w) (reaped w).

(** A successful [pipe(fds)]: both ends are now open. *)
Definition opened_pipe (r wr : Z) (w : World) : World :=
  mkWorld (cwd w) (cout w) (cerr w) (open_fds w ++ [r; wr])
          (S (pipe_calls w)) (fork_calls w) (spawned w) (reaped w).

Definition failed_pipe (w : World) : World :=
  mkWorld (cwd w) (cout w) (cerr w) (open_fds w)
          (S (pipe_calls w)) (fork_calls w) (spawned w) (reaped w).

(** [::close(fd)] in the interpreter. *)
Definition sys_close (fd : Z) (w : World) : World :=
  mkWorld (cwd w) (cout w) (cerr w) (remove Z.eq_dec fd (open_fds w))
          (pipe_calls w) (fork_calls w) (spawned w) (reaped w).

Definition forked (p : Process) (w : World) : World :=
  mkWorld (cwd w) (cout w) (cerr w) (open_fds w)
          (pipe_calls w) (S (fork_calls w)) (spawned w ++ [p]) (reaped w).

Definition failed_fork (w : World) : World :=
  mkWorld (cwd w) (cout w) (cerr w) (open_fds w)
          (pipe_calls w) (S (fork_calls w)) (spawned w) (reaped w).

Definition waited (p : Z) (w : World) : World :=
  mkWorld (cwd w) (cout w) (cerr w) (open_fds w)
          (pipe_calls w) (fork_calls w) (spawned w) (reaped w ++ [p]).

(** [getenv_or_empty] *)
Definition getenv_or_empty (os : OS) (name : string) : string :=
  match getenv os name with
  | Some v => v
  | None => EmptyString
  end.

(* ================================================================= *)
(** ** Exceptions

    A call either returns a value or is left by an exception that nothing
    in the callee catches; the caller then sees the [what()] of it. *)

Inductive Result (A : Type) : Type :=
| Ok (a : A)
| Uncaught (what : string).

Arguments Ok {A} a.
Arguments Uncaught {A} what.

(* ================================================================= *)
(** ** The Builtins class *)

Module Builtins.

(** The [for] loop of [echo] over [words[i]], [i >= 1]: a word that
    starts with [$] prints the variable named by the rest of it, and a
    space follows every word but the last. *)
Fixpoint echo_loop (os : OS) (args : Words) (w : World) : World :=
  match args with
  | [] => w
  | a :: rest =>
      let w1 :=
        if negb (str_empty a) && Ascii.eqb (char_at a 0) "$"
        then write_cout (getenv_or_empty os (substring 1 (String.length a - 1) a)) w
        else write_cout a w in
      let w2 := if negb (vec_empty rest) then write_cout " " w1 else w1 in
      echo_loop os rest w2
  end.

(** [tryRunInParent]: the flag returned and the world after it, or the
    exception that leaves the call.  The two calls of
    [fs::current_path(p)] stand in a [try] block that catches
    [std::exception]; the call of [fs::current_path()] for [pwd] stands
    in none. *)
Definition tryRunInParent (os : OS) (words : Words) (w : World)
  : Result (bool * World) :=
  match words with
  | [] => Ok (false, w)
  | cmd :: args =>
      if (cmd =? "cd")%string then
        match args with
        | [] =>
            let home := getenv_or_empty os "HOME" in
            if str_empty home then
              Ok (true, write_diag (Cerr ("cd: HOME not set" ++ nl)) w)
            else
              match set_current_path os (cwd w) home with
              | inl d => Ok (true, set_cwd d w)
              | inr what =>
                  Ok (true, write_diag (Cerr ("cd: " ++ what ++ nl)) w)
              end
        | dir :: _ =>
            match set_current_path os (cwd w) dir with
            | inl d => Ok (true, set_cwd d w)
            | inr what =>
                Ok (true, write_diag (Cerr ("cd: " ++ what ++ nl)) w)
            end
        end
      else if (cmd =? "exit")%string then Ok (true, w)
      else if (cmd =? "pwd")%string then
        match current_path_error os (cwd w) with
        | None => Ok (true, write_cout (cwd w ++ nl) w)
        | Some what => Uncaught what
        end
      else if (cmd =? "echo")%string then
        Ok (true, write_cout nl (echo_loop os args w))
      else Ok (false, w)
  end.

End Builtins.

(* ================================================================= *)
(** ** The child branch of [fork]

    A child records the calls it makes and either leaves through
    [_exit(code)] or goes on with a value. *)

Definition Child (A : Type) : Type := list Syscall * (Z + A).

Definition ret {A : Type} (a : A) : Child A := ([], inr a).

Definition bind {A B : Type} (m : Child A) (f : A -> Child B) : Child B :=
  match m with
  | (t, inl code) => (t, inl code)
  | (t, inr a) => let (t', r) := f a in (t ++ t', r)
  end.

Definition call (c : Syscall) : Child unit := ([c], inr tt).

Definition _exit {A : Type} (code : Z) : Child A := ([], inl code).

Declare Scope child_scope.
Delimit Scope child_scope with child.
Notation "x <- m ;; k" := (bind m (fun x => k))
  (at level 61, m at next level, right associativity) : child_scope.
Notation "m ;; k" := (bind m (fun _ => k))
  (at level 61, right associativity) : child_scope.

Module Executor.

Local Open Scope child_scope.
Local Open Scope Z_scope.

(** [closeAll] as a child runs it. *)
Fixpoint closeAllC (fds : list Z) : Child unit :=
  match fds with
  | [] => ret tt
  | fd :: rest => call (Close fd) ;; closeAllC rest
  end.

(** [closeAll] as the interpreter runs it. *)
Fixpoint closeAll (fds : list Z) (w : World) : World :=
  match fds with
  | [] => w
  | fd :: rest => closeAll rest (sys_close fd w)
  end.

(** [if (dup2(fd, target) == -1) { perror(msg); _exit(127); }] *)
Definition dup2_or_exit (os : OS) (fd target : Z) (msg : string)
  : Child unit :=
  call (Dup2 fd target) ;;
  if sys_dup2 os fd target then ret tt
  else call (PerrorC msg) ;; _exit 127.

(** [open] a redirection target and put it on [target]. *)
Definition redirect (os : OS) (file : string) (flags : OpenFlags)
           (target : Z) (msg : string) : Child unit :=
  call (Open file flags) ;;
  match sys_open os file flags with
  | None => call (PerrorC ("open " ++ file)) ;; _exit 127
  | Some fd =>
      dup2_or_exit os fd target msg ;;
      call (Close fd)
  end.

(** [argv[0]] of [buildArgv(words)], for a non-empty [words]. *)
Definition argv0 (words : Words) : string := hd EmptyString words.

(** The branch [if (pid == 0) { ... }] of stage [idx] of [n]. *)
Definition childBody (os : OS) (idx n : nat) (pipefds : list Z)
           (argvWords : Words) (rinfo : RedirectionInfo) : Child ChildEnd :=
  (if (0 <? idx)%nat then
     let rfd := nth ((idx - 1) * 2 + 0)%nat pipefds 0 in
     dup2_or_exit os rfd STDIN_FILENO "dup2 stdin"
   else ret tt) ;;
  (if (idx + 1 <? n)%nat then
     let wfd := nth (idx * 2 + 1)%nat pipefds 0 in
     dup2_or_exit os wfd STDOUT_FILENO "dup2 stdout"
   else ret tt) ;;
  closeAllC pipefds ;;
  (if negb (str_empty (stdin_file rinfo)) then
     redirect os (stdin_file rinfo) RdOnly STDIN_FILENO "dup2 stdin-file"
   else ret tt) ;;
  (if negb (str_empty (stdout_file rinfo)) then
     redirect os (stdout_file rinfo) (WrCreat (stdout_append rinfo))
              STDOUT_FILENO "dup2 stdout-file"
   else ret tt) ;;
  call (Execvp (argv0 argvWords) argvWords) ;;
  if sys_execvp os (argv0 argvWords) argvWords
  then ret (Execs (argv0 argvWords) argvWords)
  else call (PerrorC ("execvp: " ++ argv0 argvWords)) ;; _exit 127.

(** The process that [fork] creates for a stage. *)
Definition child (os : OS) (p : Z) (idx n : nat) (pipefds : list Z)
           (argvWords : Words) (rinfo : RedirectionInfo) : Process :=
  let (t, r) := childBody os idx n pipefds argvWords rinfo in
  mkProcess p idx t
    (match r with
     | inl code => Exits code
     | inr e => e
     end).

(** The first loop, [for (i = 0; i + 1 < n; ++i)], with [k] iterations
    left.  [None] is the early [return -1]. *)
Fixpoint createPipes (os : OS) (k : nat) (pipefds : list Z) (w : World)
  : option (list Z) * World :=
  match k with
  | O => (Some pipefds, w)
  | S k' =>
      match sys_pipe os (pipe_calls w) with
      | None => (None, write_diag (Perror "pipe") (failed_pipe w))
      | Some (r, wr) =>
          createPipes os k' (pipefds ++ [r; wr]) (opened_pipe r wr w)
      end
  end.

(** The second loop, over the stages from [idx] on.  [None] is the
    early [return -1] after a failed [fork]. *)
Fixpoint spawnStages (os : OS) (n : nat) (pipefds : list Z)
         (stages : list Words) (idx : nat) (pids : list Z) (w : World)
  : option (list Z) * World :=
  match stages with
  | [] => (Some pids, w)
  | st :: rest =>
      let (argvWords, rinfo) := extractRedirections st in
      if vec_empty argvWords then
        spawnStages os n pipefds rest (S idx) pids w
      else
        match sys_fork os (fork_calls w) with
        | None =>
            (None, closeAll pipefds (write_diag (Perror "fork") (failed_fork w)))
        | Some p =>
            spawnStages os n pipefds rest (S idx) (pids ++ [p])
              (forked (child os p idx n pipefds argvWords rinfo) w)
        end
  end.

(** The third loop, [for (pid_t pid : pids)], on the local [status]. *)
Fixpoint waitAll (os : OS) (pids : list Z) (status : Z) (w : World)
  : Z * World :=
  match pids with
  | [] => (status, w)
  | p :: rest =>
      match sys_waitpid os p with
      | None => waitAll os rest status (write_diag (Perror "waitpid") w)
      | Some st => waitAll os rest st (waited p w)
      end
  end.

Definition runPipeline (os : OS) (pipeline : list Words) (w : World)
  : Z * World :=
  if vec_empty pipeline then (0, w)
  else
    let n := List.length pipeline in
    match createPipes os (n - 1)%nat [] w with
    | (None, w1) => (-1, w1)
    | (Some pipefds, w1) =>
        match spawnStages os n pipefds pipeline 0%nat [] w1 with
        | (None, w2) => (-1, w2)
        | (Some pids, w2) =>
            let w3 := closeAll pipefds w2 in
            let (status, w4) := waitAll os pids 0 w3 in
            if WIFEXITED os status
            then (WEXITSTATUS os status, w4)
            else (-1, w4)
        end
    end.

End Executor.

(* ================================================================= *)
(** ** main *)

(** How an iteration of the read loop ends: by [break], by going on to
    the next line, or by an exception that [main] does not catch either,
    on which the runtime ends the process ([std::terminate]). *)
Inductive Control := Break | Continue | Terminate.

(** [tokens.size() == 1 && tokens[0].type == Word && tokens[0].text == "exit"] *)
Definition is_bare_exit (tokens : list Token) : bool :=
  match tokens with
  | [t] => TokenType_eqb (type t) Word && (text t =? "exit")%string
  | _ => false
  end.

(** The body of the [while (true)] loop, from the test of the line that
    [getline] has read to the end of the iteration. *)
Definition mainBody (os : OS) (line : string) (w : World) : Control * World :=
  if str_empty (trim line) then (Continue, w)
  else
    let tokens := Tokenizer.tokenize line in
    if is_bare_exit tokens then (Break, w)
    else
      let pipeline := splitIntoPipeline tokens in
      if vec_empty pipeline then (Continue, w)
      else
        let run := fun w0 => (Continue, snd (Executor.runPipeline os pipeline w0)) in
        if (List.length pipeline =? 1)%nat then
          let (argvWords, rinfo) := extractRedirections (hd [] pipeline) in
          if vec_empty argvWords then (Continue, w)
          else
            match Builtins.tryRunInParent os argvWords w with
            | Ok (handled, w') => if handled then (Continue, w') else run w'
            | Uncaught _ => (Terminate, w)
            end
        else run w.

Definition printPrompt (w : World) : World := write_cout "myshelll> " w.

(** The read loop on the lines that standard input holds; the end of the
    list is the end of input.  The loop is left by [break], at the end of
    input, or with the process when an exception is not caught. *)
Fixpoint mainLoop (os : OS) (input : list string) (w : World) : World :=
  let w := printPrompt w in
  match input with
  | [] => write_cout nl w
  | line :: rest =>
      match mainBody os line w with
      | (Break, w') => w'
      | (Continue, w') => mainLoop os rest w'
      | (Terminate, w') => w'
      end
  end.

(* ================================================================= *)
(** ** Vocabulary of the statements *)

Definition word (s : string) : Token := mkToken Word s.
Definition op (s : string) : Token := mkToken Op s.

(** The test of the first branch of [splitIntoPipeline]. *)
Definition is_pipe (t : Token) : bool :=
  TokenType_eqb (type t) Op && (text t =? "|")%string.

(** The texts of the Word tokens of a token sequence, in order. *)
Definition word_texts (tokens : list Token) : Words :=
  map text (filter (fun t => TokenType_eqb (type t) Word) tokens).

(** The tokens that follow the last [|] operator (all of them when there
    is none). *)
Fixpoint after_last_pipe (tokens : list Token) : list Token :=
  match tokens with
  | [] => []
  | t :: rest =>
      if existsb is_pipe rest then after_last_pipe rest
      else if is_pipe t then rest
      else t :: rest
  end.

(** The last element of a vector, when there is one. *)
Definition last_stage (pipeline : list Words) : option Words :=
  match rev pipeline with
  | [] => None
  | st :: _ => Some st
  end.

(** Whatever the last Stage of the
    output of the splitter is, it holds a word. *)
Definition last_stage_has_word (tokens : list Token) : Prop :=
  forall st, last_stage (splitIntoPipeline tokens) = Some st -> st <> [].

(** Section 4.3 of the specification read as a grammar: a Stage is a
    sequence of arguments, redirections (an operator and its file name)
    and at most one operator left without a file name at the very end. *)
Inductive Item :=
| Arg (s : string)
| RedirIn (file : string)
| RedirOut (append : bool) (file : string)
| Dangling (operator : string).

Definition is_redir_op (t : string) : bool :=
  ((t =? "<") || (t =? ">") || (t =? ">>"))%string.

Fixpoint items (ws : Words) : list Item :=
  match ws with
  | [] => []
  | t :: rest =>
      if is_redir_op t then
        match rest with
        | [] => [Dangling t]
        | f :: rest' =>
            (if (t =? "<")%string then RedirIn f
             else RedirOut (t =? ">>")%string f) :: items rest'
        end
      else Arg t :: items rest
  end.

(** A string that the extractor takes as an argument. *)
Definition plain (t : string) : bool := negb (is_redir_op t).

(** The descriptor after the redirections of [l] have been laid over
    the descriptor [r], the later ones over the earlier ones. *)
Definition overlay (r : RedirectionInfo) (l : list Item) : RedirectionInfo :=
  fold_left
    (fun acc i =>
       match i with
       | RedirIn f => mkRedir (trim f) (stdout_file acc) (stdout_append acc)
       | RedirOut a f => mkRedir (stdin_file acc) (trim f) a
       | _ => acc
       end) l r.

Definition args_of (l : list Item) : Words :=
  flat_map (fun i => match i with Arg s => [s] | _ => [] end) l.

Definition inputs_of (l : list Item) : list string :=
  flat_map (fun i => match i with RedirIn f => [f] | _ => [] end) l.

Definition outputs_of (l : list Item) : list (bool * string) :=
  flat_map (fun i => match i with RedirOut a f => [(a, f)] | _ => [] end) l.

(** The descriptor the specification asks for: of several redirections of
    one direction the last one counts, and a direction without any keeps
    the default. *)
Definition redirections_of (l : list Item) : RedirectionInfo :=
  mkRedir (last (map trim (inputs_of l)) EmptyString)
          (last (map (fun o => trim (snd o)) (outputs_of l)) EmptyString)
          (last (map fst (outputs_of l)) false).

(* ================================================================= *)
(** ** Sample lines and systems *)



(** Two double quotes and nothing else. *)
Definition line_empty_dquotes : string :=
  String dquote (String dquote EmptyString).

(** Two single quotes and nothing else. *)
Definition line_empty_squotes : string := "''".

(** A system where every call succeeds, except [execvp] of the empty
    name and [cd] to [/nonexistent]; statuses are encoded as on Linux
    (low seven bits: the terminating signal; next byte: the exit code). *)
Definition os_sample : OS :=
  mkOS (fun name => if (name =? "HOME")%string then Some "/home/user" else None)
       (fun _ p => if (p =? "/nonexistent")%string
                   then inr "filesystem error: cannot set current path"
                   else inl p)
       (fun k => Some (3 + 2 * Z.of_nat k, 4 + 2 * Z.of_nat k)%Z)
       (fun k => Some (100 + Z.of_nat k)%Z)
       (fun p => if (p =? 100)%Z then Some 0%Z else Some 768%Z)
       (fun _ _ => true)
       (fun _ _ => Some 9%Z)
       (fun file _ => negb (str_empty file))
       (fun st => (Z.land st 127 =? 0)%Z)
       (fun st => Z.shiftr (Z.land st 65280) 8)
       (fun _ => None).

(** As [os_sample], with [HOME] unset. *)
Definition os_no_home : OS :=
  mkOS (fun _ => None)
       (set_current_path os_sample) (sys_pipe os_sample) (sys_fork os_sample)
       (sys_waitpid os_sample) (sys_dup2 os_sample) (sys_open os_sample)
       (sys_execvp os_sample) (WIFEXITED os_sample) (WEXITSTATUS os_sample)
       (current_path_error os_sample).

(** As [os_sample], but only the first [pipe] of a run succeeds. *)
Definition os_second_pipe_fails : OS :=
  mkOS (getenv os_sample) (set_current_path os_sample)
       (fun k => if (k =? 0)%nat then Some (3, 4)%Z else None)
       (sys_fork os_sample)
       (sys_waitpid os_sample) (sys_dup2 os_sample) (sys_open os_sample)
       (sys_execvp os_sample) (WIFEXITED os_sample) (WEXITSTATUS os_sample)
       (current_path_error os_sample).

(** As [os_sample], but only the first [fork] succeeds. *)
Definition os_second_fork_fails : OS :=
  mkOS (getenv os_sample) (set_current_path os_sample) (sys_pipe os_sample)
       (fun k => if (k =? 0)%nat then Some 100%Z else None)
       (sys_waitpid os_sample) (sys_dup2 os_sample) (sys_open os_sample)
       (sys_execvp os_sample) (WIFEXITED os_sample) (WEXITSTATUS os_sample)
       (current_path_error os_sample).


(** As [os_sample], but [fs::current_path()] throws. *)
Definition os_cwd_lost : OS :=
  mkOS (getenv os_sample) (set_current_path os_sample) (sys_pipe os_sample)
       (sys_fork os_sample) (sys_waitpid os_sample)
       (sys_dup2 os_sample) (sys_open os_sample)
       (sys_execvp os_sample) (WIFEXITED os_sample) (WEXITSTATUS os_sample)
       (fun _ => Some "filesystem error: cannot get current path").

(** The interpreter at start-up, in the root directory. *)
Definition world0 : World := mkWorld "/" EmptyString [] [] 0 0 [] [].

(* ================================================================= *)
(** ** Vocabulary of the further statements *)

(** Every character of [s] passes the test [p]. *)
Fixpoint all_chars (p : ascii -> bool) (s : string) : bool :=
  match s with
  | EmptyString => true
  | String c r => p c && all_chars p r
  end.

(** A backslash is put before every double quote and every backslash. *)
Fixpoint escape_dq (s : string) : string :=
  match s with
  | EmptyString => EmptyString
  | String c r =>
      if Ascii.eqb c dquote || Ascii.eqb c backslash
      then String backslash (String c (escape_dq r))
      else String c (escape_dq r)
  end.

(** A backslash is put before every character. *)
Fixpoint escape_all (s : string) : string :=
  match s with
  | EmptyString => EmptyString
  | String c r => String backslash (String c (escape_all r))
  end.

(** A character that the tokenizer copies into a word as it is. *)
Definition plain_char (c : ascii) : bool :=
  negb (isspace c || Tokenizer.isOperatorStart c || Ascii.eqb c squote
        || Ascii.eqb c dquote || Ascii.eqb c backslash).

Definition plain_word (w : string) : bool :=
  negb (str_empty w) && all_chars plain_char w.

(** A character that is neither a quote nor a backslash. *)
Definition bare_char (c : ascii) : bool :=
  negb (Ascii.eqb c squote || Ascii.eqb c dquote || Ascii.eqb c backslash).

(** A character that does not start an operator. *)
Definition not_operator_char (c : ascii) : bool :=
  negb (Tokenizer.isOperatorStart c).

(** The texts that [readOperator] can return. *)
Definition op_texts : list string := ["|"; "<"; ">"; ">>"; "&"; ";"].

(** What [echo] prints for one argument. *)
Definition expand (os : OS) (a : string) : string :=
  if negb (str_empty a) && Ascii.eqb (char_at a 0) "$"
  then getenv_or_empty os (substring 1 (String.length a - 1) a)
  else a.

(** The Stage is not skipped by the executor. *)
Definition has_command (st : Words) : bool :=
  negb (vec_empty (fst (extractRedirections st))).

(** The positions, counted from [idx], of the Stages that are not
    skipped. *)
Fixpoint command_positions (stages : list Words) (idx : nat) : list nat :=
  match stages with
  | [] => []
  | st :: rest =>
      if has_command st then idx :: command_positions rest (S idx)
      else command_positions rest (S idx)
  end.



(** The parts of the world that belong to the interpreter alone: its
    directory and what it has written to standard output. *)
Definition same_shell_state (w w' : World) : Prop :=
  cwd w' = cwd w /\ cout w' = cout w.

(** The parts of the world that record pipes and processes. *)
Definition same_process_state (w w' : World) : Prop :=
  open_fds w' = open_fds w /\ pipe_calls w' = pipe_calls w
  /\ fork_calls w' = fork_calls w /\ spawned w' = spawned w
  /\ reaped w' = reaped w.

(** The pids for which [waitpid] succeeds. *)
Definition waitable (os : OS) (p : Z) : bool :=
  match sys_waitpid os p with
  | Some _ => true
  | None => false
  end.

(* ================================================================= *)
(** * Properties *)

(** ** The tokenizer always returns *)

Section TokenizerTotal.

Import Tokenizer.

Lemma readSingle_length (rest out : string) :
  String.length (snd (readSingle rest out)) <= String.length rest.
Proof.
  revert out; induction rest as [|c r IH]; intros out; simpl; [lia|].
  destruct (Ascii.eqb c squote); simpl; [lia|].
  specialize (IH (push_back out c)); lia.
Qed.

Lemma readDouble_length_bounded (n : nat) :
  forall rest out, String.length rest <= n ->
    String.length (snd (readDouble rest out)) <= String.length rest.
Proof.
  induction n as [|n IH]; intros rest out Hn.
  - destruct rest; simpl in *; lia.
  - destruct rest as [|d r]; simpl in *; [lia|].
    destruct (Ascii.eqb d dquote); simpl; [lia|].
    destruct (Ascii.eqb d backslash).
    + destruct r as [|e r']; simpl in *; [lia|].
      specialize (IH r' (push_back out e)); lia.
    + specialize (IH r (push_back out d)); lia.
Qed.

Lemma readDouble_length (rest out : string) :
  String.length (snd (readDouble rest out)) <= String.length rest.
Proof. apply (readDouble_length_bounded (String.length rest)); lia. Qed.

Lemma closeQuote_length (q : ascii) (rest : string) :
  String.length (closeQuote q rest) <= String.length rest.
Proof.
  unfold closeQuote; destruct rest as [|c r]; simpl; [lia|].
  destruct (Ascii.eqb c q); simpl; lia.
Qed.

Lemma skipWhitespace_length (rest : string) :
  String.length (skipWhitespace rest) <= String.length rest.
Proof.
  induction rest as [|c r IH]; simpl; [lia|].
  destruct (isspace c); simpl; lia.
Qed.

Lemma readOperator_length (c : ascii) (r : string) :
  String.length (snd (readOperator (String c r))) < String.length (String c r).
Proof.
  unfold readOperator; simpl.
  destruct (Ascii.eqb c ">"); simpl; [|lia].
  destruct r as [|d r']; simpl; [lia|].
  destruct (Ascii.eqb d ">"); simpl; lia.
Qed.

(** With more fuel than characters the loop of [readWord] returns, on a
    rest that is no longer than the one it started from. *)
Local Ltac slia := cbn [String.length] in *; lia.

Lemma readWord_loop_total (fuel : nat) :
  forall rest out, String.length rest < fuel ->
    exists t r, readWord_loop fuel rest out = Some (t, r)
                /\ String.length r <= String.length rest.
Proof.
  induction fuel as [|fuel IH]; intros rest out Hf; [slia|].
  destruct rest as [|c r]; simpl.
  { exists out, EmptyString; split; [reflexivity|simpl; lia]. }
  destruct (isspace c || isOperatorStart c).
  { exists out, (String c r); split; [reflexivity|slia]. }
  simpl in Hf.
  destruct (Ascii.eqb c squote).
  { pose proof (readSingle_length r out) as Hs.
    destruct (readSingle r out) as [o' r'] eqn:E; simpl in Hs.
    pose proof (closeQuote_length squote r') as Hc.
    destruct (IH (closeQuote squote r') o') as (t & r2 & Ht & Hl); [slia|].
    exists t, r2; split; [exact Ht|simpl; lia]. }
  destruct (Ascii.eqb c dquote).
  { pose proof (readDouble_length r out) as Hs.
    destruct (readDouble r out) as [o' r'] eqn:E; simpl in Hs.
    pose proof (closeQuote_length dquote r') as Hc.
    destruct (IH (closeQuote dquote r') o') as (t & r2 & Ht & Hl); [slia|].
    exists t, r2; split; [exact Ht|simpl; lia]. }
  destruct (Ascii.eqb c backslash).
  { destruct r as [|e r']; simpl in *.
    - destruct (IH EmptyString out) as (t & r2 & Ht & Hl); [simpl; lia|].
      exists t, r2; split; [exact Ht|simpl in *; lia].
    - destruct (IH r' (push_back out e)) as (t & r2 & Ht & Hl); [slia|].
      exists t, r2; split; [exact Ht|slia]. }
  destruct (IH r (push_back out c)) as (t & r2 & Ht & Hl); [slia|].
  exists t, r2; split; [exact Ht|simpl; lia].
Qed.

(** A word that starts on a character that is neither white space nor the
    start of an operator takes at least that character. *)
Lemma readWord_progress (c : ascii) (r : string) :
  isspace c || isOperatorStart c = false ->
  exists t r', readWord (S (String.length (String c r))) (String c r) = Some (t, r')
               /\ String.length r' < String.length (String c r).
Proof.
  intros Hc. unfold readWord.
  cbn [readWord_loop eof str_empty peek]. rewrite Hc.
  cbn [get snd fst].
  destruct (Ascii.eqb c squote).
  { pose proof (readSingle_length r EmptyString) as Hs.
    destruct (readSingle r EmptyString) as [o' r'] eqn:E; simpl in Hs.
    pose proof (closeQuote_length squote r') as Hq.
    destruct (readWord_loop_total (String.length (String c r))
                (closeQuote squote r') o') as (t & r2 & Ht & Hl); [simpl; lia|].
    exists t, r2; split; [exact Ht|simpl; lia]. }
  destruct (Ascii.eqb c dquote).
  { pose proof (readDouble_length r EmptyString) as Hs.
    destruct (readDouble r EmptyString) as [o' r'] eqn:E; simpl in Hs.
    pose proof (closeQuote_length dquote r') as Hq.
    destruct (readWord_loop_total (String.length (String c r))
                (closeQuote dquote r') o') as (t & r2 & Ht & Hl); [simpl; lia|].
    exists t, r2; split; [exact Ht|simpl; lia]. }
  destruct (Ascii.eqb c backslash).
  { destruct r as [|e r']; cbn [eof str_empty negb get snd fst].
    - destruct (readWord_loop_total (String.length (String c EmptyString))
                  EmptyString EmptyString) as (t & r2 & Ht & Hl); [simpl; lia|].
      exists t, r2; split; [exact Ht|simpl in *; lia].
    - destruct (readWord_loop_total (String.length (String c (String e r')))
                  r' (push_back EmptyString e)) as (t & r2 & Ht & Hl); [simpl; lia|].
      exists t, r2; split; [exact Ht|simpl in *; lia]. }
  destruct (readWord_loop_total (String.length (String c r))
              r (push_back EmptyString c)) as (t & r2 & Ht & Hl); [simpl; lia|].
  exists t, r2; split; [exact Ht|simpl in *; lia].
Qed.

Lemma tokenize_loop_total (fuel : nat) :
  forall rest out, String.length rest < fuel ->
    exists toks, tokenize_loop fuel rest out = Some toks.
Proof.
  induction fuel as [|fuel IH]; intros rest out Hf; [slia|].
  cbn [tokenize_loop].
  pose proof (skipWhitespace_length rest) as Hs.
  destruct (skipWhitespace rest) as [|c r] eqn:E.
  { exists out; reflexivity. }
  cbn [eof str_empty peek].
  destruct (isOperatorStart c) eqn:Hop.
  - pose proof (readOperator_length c r) as Ho.
    destruct (readOperator (String c r)) as [t r'] eqn:Er; simpl in Ho.
    apply IH; simpl in Hs; lia.
  - assert (Hsp : isspace c = false).
    { destruct rest as [|c0 r0]; [discriminate|].
      revert E; clear.
      revert c0; induction r0 as [|c1 r1 IHr]; intros c0; simpl.
      - destruct (isspace c0) eqn:E0; [discriminate|].
        intros H; injection H as <- _; exact E0.
      - destruct (isspace c0) eqn:E0.
        + apply IHr.
        + intros H; injection H as <- _; exact E0. }
    destruct (readWord_progress c r) as (t & r' & Ht & Hl).
    { rewrite Hsp, Hop; reflexivity. }
    rewrite Ht. apply IH. simpl in *; lia.
Qed.

(** [tokenize] is the result of the fuelled loop: the fuel never runs out. *)
Lemma tokenize_fuel_total (line : string) :
  tokenize_fuel line = Some (tokenize line).
Proof.
  unfold tokenize.
  destruct (tokenize_loop_total (S (String.length line)) line []) as [toks H];
    [slia|].
  unfold tokenize_fuel at 1 2. rewrite H. reflexivity.
Qed.

End TokenizerTotal.

(* ================================================================= *)
(** ** The tokenizer on quoted and escaped text *)


(* ================================================================= *)
(** ** The pipeline splitter *)

Section Splitter.

Lemma split_loop_app (a b : list Token) (st : list Words * Words) :
  split_loop (a ++ b) st = split_loop b (split_loop a st).
Proof. unfold split_loop; apply fold_left_app. Qed.

Lemma split_step_pipe (p : list Words) (c : Words) (t : Token) :
  is_pipe t = true -> split_step (p, c) t = (p ++ [c], []).
Proof. unfold is_pipe, split_step; intros ->; reflexivity. Qed.

Lemma split_step_word (p : list Words) (c : Words) (t : Token) :
  type t = Word -> split_step (p, c) t = (p, c ++ [text t]).
Proof. unfold split_step; intros ->; reflexivity. Qed.

(** An operator other than [|] changes neither local of the loop. *)
Lemma split_step_inert (st : list Words * Words) (t : Token) :
  type t = Op -> text t <> "|" -> split_step st t = st.
Proof.
  intros Ht Hx; destruct st as [p c]; unfold split_step; rewrite Ht.
  apply String.eqb_neq in Hx; rewrite Hx; reflexivity.
Qed.

Lemma split_skips_operator (pre post : list Token) (t : Token) :
  type t = Op -> text t <> "|" ->
  splitIntoPipeline (pre ++ t :: post) = splitIntoPipeline (pre ++ post).
Proof.
  intros Ht Hx; unfold splitIntoPipeline.
  rewrite !split_loop_app.
  change (split_loop (t :: post) ?st) with (split_loop post (split_step st t)).
  rewrite split_step_inert by assumption; reflexivity.
Qed.

Lemma after_last_pipe_none (tokens : list Token) :
  existsb is_pipe tokens = false -> after_last_pipe tokens = tokens.
Proof.
  destruct tokens as [|t rest]; simpl; [reflexivity|].
  intros H; apply orb_false_elim in H as [Ht Hr]; rewrite Hr, Ht; reflexivity.
Qed.

(** The local [current] after the loop: the words that follow the last
    [|], after what [current] held before when no [|] was met. *)
Lemma split_loop_current (tokens : list Token) :
  forall p c,
    snd (split_loop tokens (p, c))
    = (if existsb is_pipe tokens then [] else c)
        ++ word_texts (after_last_pipe tokens).
Proof.
  induction tokens as [|t rest IH]; intros p c.
  - simpl; rewrite app_nil_r; reflexivity.
  - change (split_loop (t :: rest) (p, c))
      with (split_loop rest (split_step (p, c) t)).
    cbn [existsb after_last_pipe].
    destruct (is_pipe t) eqn:Hp.
    + rewrite split_step_pipe by exact Hp. rewrite IH. cbn [orb].
      destruct (existsb is_pipe rest) eqn:Hr; [reflexivity|].
      rewrite after_last_pipe_none by exact Hr; reflexivity.
    + destruct (type t) eqn:Ht.
      * rewrite split_step_word by exact Ht. rewrite IH. cbn [orb].
        destruct (existsb is_pipe rest) eqn:Hr; [reflexivity|].
        rewrite after_last_pipe_none by exact Hr.
        unfold word_texts; cbn [filter]; rewrite Ht; cbn [TokenType_eqb map].
        rewrite <- app_assoc; reflexivity.
      * assert (Hx : text t <> "|").
        { intros E; unfold is_pipe in Hp; rewrite Ht, E in Hp; discriminate. }
        rewrite split_step_inert by assumption. rewrite IH. cbn [orb].
        destruct (existsb is_pipe rest) eqn:Hr; [reflexivity|].
        rewrite after_last_pipe_none by exact Hr.
        unfold word_texts; cbn [filter]; rewrite Ht; reflexivity.
Qed.

(** The local [pipeline] grows by one Stage for every [|]. *)
Lemma split_loop_length (tokens : list Token) :
  forall p c,
    List.length (fst (split_loop tokens (p, c)))
    = List.length p + List.length (filter is_pipe tokens).
Proof.
  induction tokens as [|t rest IH]; intros p c.
  - simpl; lia.
  - change (split_loop (t :: rest) (p, c))
      with (split_loop rest (split_step (p, c) t)).
    cbn [filter]. destruct (is_pipe t) eqn:Hp.
    + rewrite split_step_pipe by exact Hp. rewrite IH, length_app; simpl; lia.
    + destruct (type t) eqn:Ht.
      * rewrite split_step_word by exact Ht. apply IH.
      * rewrite split_step_inert; [apply IH|exact Ht|].
        intros E; unfold is_pipe in Hp; rewrite Ht, E in Hp; discriminate.
Qed.

End Splitter.

(** C6, as worded, fails on the line that is a single [|]: its one token
    gives the pipeline of one empty Stage. *)
Lemma split_single_pipe_gives_empty_stage :
  Tokenizer.tokenize_fuel "|" = Some [op "|"]
  /\ splitIntoPipeline (Tokenizer.tokenize "|") = [[]]
  /\ ~ last_stage_has_word (Tokenizer.tokenize "|").
Proof.
  split; [reflexivity|]. split; [reflexivity|].
  intros H. apply (H []); reflexivity.
Qed.

(** C6, amended.  For a token sequence that ends in [|], no Stage is
    added for the empty segment after that last [|]: the output has one
    Stage for each [|] token, and its last Stage holds the words between
    the last [|] and the [|] before it (or the start of the line), which
    may be none. *)
Theorem split_trailing_pipe (tokens : list Token) :
  let out := splitIntoPipeline (tokens ++ [op "|"]) in
  List.length out = List.length (filter is_pipe (tokens ++ [op "|"]))
  /\ last_stage out = Some (word_texts (after_last_pipe tokens)).
Proof.
  cbv zeta. unfold splitIntoPipeline. rewrite split_loop_app.
  pose proof (split_loop_current tokens [] []) as Hc.
  pose proof (split_loop_length tokens [] []) as Hl.
  unfold Words in *.
  destruct (split_loop tokens (@nil (list string), @nil string)) as [p c].
  cbn [fst snd] in *.
  change (split_loop [op "|"] (p, c)) with (p ++ [c], @nil string).
  cbn [vec_empty negb]. split.
  - rewrite filter_app, !length_app; simpl in *. f_equal; exact Hl.
  - unfold last_stage. rewrite rev_app_distr; cbn [rev app].
    rewrite Hc. destruct (existsb is_pipe tokens); reflexivity.
Qed.

(* ================================================================= *)
(** ** The executor *)

Section ExecutorFacts.

Import Executor.

Variable os : OS.

Lemma closeAll_spawned (fds : list Z) :
  forall w, spawned (closeAll fds w) = spawned w.
Proof. induction fds as [|fd rest IH]; intros w; simpl; [|rewrite IH]; reflexivity. Qed.

Lemma closeAll_open_fds (fds : list Z) :
  forall w fd, In fd (open_fds (closeAll fds w)) ->
               In fd (open_fds w) /\ ~ In fd fds.
Proof.
  induction fds as [|f rest IH]; intros w fd H; simpl in *.
  - split; [exact H|tauto].
  - apply IH in H as [H Hn]. simpl in H.
    apply in_remove in H as [H Hne]. split; [exact H|].
    intros [E|E]; [congruence|contradiction].
Qed.

Lemma waitAll_spawned (pids : list Z) :
  forall status w, spawned (snd (waitAll os pids status w)) = spawned w.
Proof.
  induction pids as [|p rest IH]; intros status w; simpl; [reflexivity|].
  destruct (sys_waitpid os p); rewrite IH; reflexivity.
Qed.

(** The status that the loop leaves is the one of the last pid, when the
    wait for it succeeds. *)
Lemma waitAll_last (pids : list Z) (p st : Z) :
  sys_waitpid os p = Some st ->
  forall status w, fst (waitAll os (pids ++ [p]) status w) = st.
Proof.
  intros Hp; induction pids as [|q rest IH]; intros status w; simpl.
  - rewrite Hp; reflexivity.
  - destruct (sys_waitpid os q); apply IH.
Qed.

Lemma spawnStages_app (n : nat) (fds : list Z) (a b : list Words) :
  forall idx pids w,
    spawnStages os n fds (a ++ b) idx pids w
    = match spawnStages os n fds a idx pids w with
      | (Some pids', w') => spawnStages os n fds b (idx + List.length a) pids' w'
      | (None, w') => (None, w')
      end.
Proof.
  induction a as [|st rest IH]; intros idx pids w; simpl.
  - rewrite Nat.add_0_r; reflexivity.
  - destruct (extractRedirections st) as [argv r].
    destruct (vec_empty argv).
    + rewrite IH. replace (S idx + List.length rest) with (idx + S (List.length rest)) by lia.
      reflexivity.
    + destruct (sys_fork os (fork_calls w)); [|reflexivity].
      rewrite IH. replace (S idx + List.length rest) with (idx + S (List.length rest)) by lia.
      reflexivity.
Qed.

(** A pipeline of one Stage that holds a command: one [fork], and the
    child is the only process added. *)
Lemma runPipeline_single (st argv : Words) (r : RedirectionInfo) (w : World) :
  extractRedirections st = (argv, r) ->
  vec_empty argv = false ->
  spawned (snd (runPipeline os [st] w))
  = match sys_fork os (fork_calls w) with
    | Some p => spawned w ++ [child os p 0 1 [] argv r]
    | None => spawned w
    end.
Proof.
  intros He Hv. unfold runPipeline; cbn [vec_empty List.length Nat.sub createPipes].
  cbn [spawnStages]. rewrite He, Hv.
  destruct (sys_fork os (fork_calls w)) as [p|]; [|reflexivity].
  cbn [closeAll app].
  destruct (waitAll os [p] 0 _) as [status w4] eqn:E.
  assert (Hs : spawned w4 = spawned w ++ [child os p 0 1 [] argv r]).
  { change w4 with (snd (status, w4)). rewrite <- E, waitAll_spawned. reflexivity. }
  destruct (WIFEXITED os status); exact Hs.
Qed.

End ExecutorFacts.

(* ================================================================= *)
(** ** Blank lines *)

Section BlankLines.

Lemma char_at_succ (c : ascii) (r : string) (i : nat) :
  char_at (String c r) (S i) = char_at r i.
Proof. reflexivity. Qed.

(** The first loop of [trim] stops on the first character that is not
    white space, or at the end of the string. *)
Lemma trim_left_exit (s : string) (n : nat) :
  forall a, a <= String.length s -> String.length s <= a + n ->
    let a' := trim_left s a n in
    a <= a' <= String.length s
    /\ (forall i, a <= i < a' -> isspace (char_at s i) = true)
    /\ (a' < String.length s -> isspace (char_at s a') = false).
Proof.
  induction n as [|n IH]; intros a Ha Hn; cbn [trim_left].
  - cbv zeta. repeat split; try lia.
  - destruct (a <? String.length s)%nat eqn:Hlt; cbn [andb].
    + apply Nat.ltb_lt in Hlt.
      destruct (isspace (char_at s a)) eqn:Hsp.
      * destruct (IH (S a)) as (Hb & Hall & Hstop); [lia|lia|].
        cbv zeta. repeat split; try lia; [|exact Hstop].
        intros i Hi. destruct (Nat.eq_dec i a) as [->|Hne]; [exact Hsp|].
        apply Hall; lia.
      * cbv zeta. repeat split; try lia. intros _; exact Hsp.
    + apply Nat.ltb_ge in Hlt. cbv zeta. repeat split; lia.
Qed.

(** The second loop of [trim] never goes below [a], and passes over white
    space only. *)
Lemma trim_right_exit (s : string) (a : nat) :
  forall b, a <= b ->
    let b' := trim_right s a b in
    a <= b' <= b /\ (forall i, b' <= i < b -> isspace (char_at s i) = true).
Proof.
  induction b as [|b IH]; intros Hab; cbn [trim_right].
  - cbv zeta. split; [lia|]. intros i Hi; lia.
  - destruct (a <? S b)%nat eqn:Hlt; cbn [andb].
    + apply Nat.ltb_lt in Hlt.
      destruct (isspace (char_at s b)) eqn:Hsp.
      * destruct IH as (Hb & Hall); [lia|].
        cbv zeta. split; [lia|].
        intros i Hi. destruct (Nat.eq_dec i b) as [->|Hne]; [exact Hsp|].
        apply Hall; lia.
      * cbv zeta. split; [lia|]. intros i Hi; lia.
    + apply Nat.ltb_ge in Hlt. cbv zeta. split; [lia|]. intros i Hi; lia.
Qed.

Lemma substring_nonempty (s : string) :
  forall a n, a < String.length s -> 0 < n ->
    str_empty (substring a n s) = false.
Proof.
  induction s as [|c r IH]; intros a n Ha Hn; simpl in Ha; [lia|].
  destruct a as [|a]; simpl.
  - destruct n; [lia|reflexivity].
  - apply IH; lia.
Qed.

(** [trim] returns the empty string on white space only. *)
Lemma trim_empty_all_space (s : string) :
  str_empty (trim s) = true ->
  forall i, i < String.length s -> isspace (char_at s i) = true.
Proof.
  unfold trim. intros He.
  destruct (trim_left_exit s (String.length s) 0) as (Ha & Hall & Hstop);
    [lia|lia|].
  set (a := trim_left s 0 (String.length s)) in *.
  destruct (trim_right_exit s a (String.length s)) as (Hb & Hsp); [lia|].
  set (b := trim_right s a (String.length s)) in *.
  destruct (Nat.lt_ge_cases a (String.length s)) as [Hlt|Hge].
  - exfalso. destruct (Nat.eq_dec b a) as [Hba|Hba].
    + rewrite (Hsp a) in Hstop by lia. specialize (Hstop Hlt); discriminate.
    + rewrite substring_nonempty in He by lia. discriminate.
  - intros i Hi. apply Hall; lia.
Qed.

Lemma skipWhitespace_all_space (s : string) :
  (forall i, i < String.length s -> isspace (char_at s i) = true) ->
  Tokenizer.skipWhitespace s = EmptyString.
Proof.
  induction s as [|c r IH]; intros H; simpl; [reflexivity|].
  assert (H0 : isspace c = true) by (apply (H 0); simpl; lia).
  rewrite H0. apply IH. intros i Hi. rewrite <- (char_at_succ c). apply H; simpl; lia.
Qed.

(** A line that [main] skips as blank has no token. *)
Lemma blank_line_no_tokens (line : string) :
  str_empty (trim line) = true -> Tokenizer.tokenize line = [].
Proof.
  intros H. unfold Tokenizer.tokenize, Tokenizer.tokenize_fuel.
  cbn [Tokenizer.tokenize_loop].
  rewrite skipWhitespace_all_space by (apply trim_empty_all_space; exact H).
  reflexivity.
Qed.

End BlankLines.

(* ================================================================= *)
(** ** The read loop *)

Section ReadLoop.

Variable os : OS.

Lemma is_bare_exit_iff (tokens : list Token) :
  is_bare_exit tokens = true <-> tokens = [word "exit"].
Proof.
  split.
  - destruct tokens as [|[ty tx] [|t2 rest]]; simpl; try discriminate.
    intros H; apply andb_prop in H as [Hty Htx].
    destruct ty; [|discriminate].
    apply String.eqb_eq in Htx; subst tx; reflexivity.
  - intros ->; reflexivity.
Qed.

(** Only [pwd] can be left by an exception, and only when
    [fs::current_path()] throws. *)
Lemma tryRunInParent_uncaught (words : Words) (w : World) (what : string) :
  Builtins.tryRunInParent os words w = Uncaught what ->
  hd EmptyString words = "pwd" /\ current_path_error os (cwd w) = Some what.
Proof.
  destruct words as [|cmd args]; [discriminate|].
  unfold Builtins.tryRunInParent.
  destruct (cmd =? "cd")%string.
  { destruct args as [|dir more].
    - destruct (str_empty (getenv_or_empty os "HOME")); [discriminate|].
      destruct (set_current_path os (cwd w) (getenv_or_empty os "HOME"));
        discriminate.
    - destruct (set_current_path os (cwd w) dir); discriminate. }
  destruct (cmd =? "exit")%string; [discriminate|].
  destruct (cmd =? "pwd")%string eqn:Ep; [|destruct (cmd =? "echo")%string;
                                            discriminate].
  apply String.eqb_eq in Ep. subst cmd.
  destruct (current_path_error os (cwd w)) as [e|]; [|discriminate].
  intros H; injection H as <-. split; reflexivity.
Qed.

Lemma tryRunInParent_returns (words : Words) (w : World) :
  current_path_error os (cwd w) = None \/ hd EmptyString words <> "pwd" ->
  exists handled w', Builtins.tryRunInParent os words w = Ok (handled, w').
Proof.
  intros H.
  destruct (Builtins.tryRunInParent os words w) as [[handled w']|what] eqn:E.
  - exists handled, w'. reflexivity.
  - apply tryRunInParent_uncaught in E as [Hp He].
    destruct H as [H|H]; [congruence|contradiction].
Qed.

(** An iteration leaves the loop by [break] on a bare [exit], and only
    then. *)
Lemma mainBody_break_iff (line : string) (w : World) :
  fst (mainBody os line w) = Break
  <-> is_bare_exit (Tokenizer.tokenize line) = true.
Proof.
  unfold mainBody.
  destruct (str_empty (trim line)) eqn:Hb.
  - rewrite (blank_line_no_tokens line Hb); cbn. split; discriminate.
  - destruct (is_bare_exit (Tokenizer.tokenize line)); [split; reflexivity|].
    assert (Hn : forall c : Control * World,
               fst c <> Break -> (fst c = Break <-> false = true))
      by (intros c Hc; split; [contradiction|discriminate]).
    apply Hn.
    destruct (vec_empty (splitIntoPipeline (Tokenizer.tokenize line)));
      [discriminate|].
    destruct (List.length (splitIntoPipeline (Tokenizer.tokenize line)) =? 1)%nat;
      [|discriminate].
    destruct (extractRedirections _) as [argv r].
    destruct (vec_empty argv); [discriminate|].
    destruct (Builtins.tryRunInParent os argv w) as [[[|] w']|what];
      discriminate.
Qed.

(** Unless [fs::current_path()] throws, an iteration on a line that is
    not a bare [exit] goes on to the next line. *)
Lemma mainBody_continue (line : string) (w : World) :
  is_bare_exit (Tokenizer.tokenize line) = false ->
  current_path_error os (cwd w) = None ->
  fst (mainBody os line w) = Continue.
Proof.
  intros Hx Hp. unfold mainBody.
  destruct (str_empty (trim line)); [reflexivity|]. rewrite Hx.
  destruct (vec_empty (splitIntoPipeline (Tokenizer.tokenize line)));
    [reflexivity|].
  destruct (List.length (splitIntoPipeline (Tokenizer.tokenize line)) =? 1)%nat;
    [|reflexivity].
  destruct (extractRedirections _) as [argv r].
  destruct (vec_empty argv); [reflexivity|].
  destruct (tryRunInParent_returns argv w (or_introl Hp)) as (h & w' & ->).
  destruct h; reflexivity.
Qed.

(** A line that is one Stage holding a command goes to the builtins
    first and to the executor when they decline. *)
Lemma mainBody_single_stage (line : string) (w : World)
      (st argv : Words) (r : RedirectionInfo) :
  splitIntoPipeline (Tokenizer.tokenize line) = [st] ->
  extractRedirections st = (argv, r) ->
  vec_empty argv = false ->
  is_bare_exit (Tokenizer.tokenize line) = false ->
  mainBody os line w
  = match Builtins.tryRunInParent os argv w with
    | Ok (handled, w') =>
        (Continue,
         if handled then w' else snd (Executor.runPipeline os [st] w'))
    | Uncaught _ => (Terminate, w)
    end.
Proof.
  intros Hs He Hv Hx. unfold mainBody.
  destruct (str_empty (trim line)) eqn:Hb.
  { rewrite (blank_line_no_tokens line Hb) in Hs; discriminate. }
  rewrite Hx, Hs. cbn [vec_empty List.length Nat.eqb hd]. rewrite He, Hv.
  destruct (Builtins.tryRunInParent os argv w) as [[[|] w']|what]; reflexivity.
Qed.

(** A line of two or more Stages goes to the executor as a whole. *)
Lemma mainBody_multi_stage (line : string) (w : World) :
  2 <= List.length (splitIntoPipeline (Tokenizer.tokenize line)) ->
  mainBody os line w
  = (Continue,
     snd (Executor.runPipeline os
            (splitIntoPipeline (Tokenizer.tokenize line)) w)).
Proof.
  intros Hlen. unfold mainBody.
  destruct (str_empty (trim line)) eqn:Hb.
  { rewrite (blank_line_no_tokens line Hb) in Hlen. simpl in Hlen. lia. }
  destruct (is_bare_exit (Tokenizer.tokenize line)) eqn:Hx.
  { apply is_bare_exit_iff in Hx. rewrite Hx in Hlen. simpl in Hlen. lia. }
  destruct (splitIntoPipeline (Tokenizer.tokenize line)) as [|s1 [|s2 l]];
    cbn [List.length] in Hlen; try lia.
  reflexivity.
Qed.

End ReadLoop.

(** C7.  An iteration of the read loop ends the session by [break]
    exactly when the line is the one word [exit], and then nothing else
    has happened: the lines that follow are not read.  A line with [exit]
    and arguments, or with [exit] as a stage of a longer pipeline, lets
    the loop go on to the next line, and so does every other line unless
    [pwd] is left by an exception; and the builtin dispatcher reports
    [exit] as handled, with or without arguments, without any effect. *)
Theorem exit_ends_session_only_alone :
  (forall os line w,
      Tokenizer.tokenize line = [word "exit"] ->
      mainBody os line w = (Break, w))
  /\ (forall os line w,
         Tokenizer.tokenize line <> [word "exit"] ->
         fst (mainBody os line w) <> Break)
  /\ (forall os line w,
         Tokenizer.tokenize line <> [word "exit"] ->
         current_path_error os (cwd w) = None ->
         fst (mainBody os line w) = Continue)
  /\ (forall os line w st args r,
         Tokenizer.tokenize line <> [word "exit"] ->
         splitIntoPipeline (Tokenizer.tokenize line) = [st] ->
         extractRedirections st = ("exit" :: args, r) ->
         mainBody os line w = (Continue, w))
  /\ (forall os line w,
         2 <= List.length (splitIntoPipeline (Tokenizer.tokenize line)) ->
         fst (mainBody os line w) = Continue)
  /\ (forall os line rest w,
         Tokenizer.tokenize line = [word "exit"] ->
         mainLoop os (line :: rest) w = printPrompt w)
  /\ (forall os line rest w,
         Tokenizer.tokenize line <> [word "exit"] ->
         current_path_error os (cwd w) = None ->
         mainLoop os (line :: rest) w
         = mainLoop os rest (snd (mainBody os line (printPrompt w))))
  /\ (forall os args w,
         Builtins.tryRunInParent os ("exit" :: args) w = Ok (true, w))
  /\ Tokenizer.tokenize_fuel "exit" = Some [word "exit"]
  /\ (forall os w, mainBody os "exit 1" w = (Continue, w))
  /\ (forall os w, fst (mainBody os "exit | ls" w) = Continue)
  /\ (forall os w, fst (mainBody os "ls | exit" w) = Continue).
Proof.
  assert (Hx : forall line,
             Tokenizer.tokenize line <> [word "exit"] ->
             is_bare_exit (Tokenizer.tokenize line) = false).
  { intros line Hne.
    destruct (is_bare_exit (Tokenizer.tokenize line)) eqn:E; [|reflexivity].
    apply is_bare_exit_iff in E; contradiction. }
  assert (Hgo : forall os line w,
             Tokenizer.tokenize line <> [word "exit"] ->
             current_path_error os (cwd w) = None ->
             fst (mainBody os line w) = Continue).
  { intros os line w Hne Hp. apply mainBody_continue; [apply Hx; exact Hne|exact Hp]. }
  assert (Hstop : forall os line w,
             Tokenizer.tokenize line = [word "exit"] ->
             mainBody os line w = (Break, w)).
  { intros os line w Ht. unfold mainBody.
    destruct (str_empty (trim line)) eqn:Hb.
    - rewrite (blank_line_no_tokens line Hb) in Ht; discriminate.
    - rewrite Ht; reflexivity. }
  assert (Hargs : forall os line w st args r,
             Tokenizer.tokenize line <> [word "exit"] ->
             splitIntoPipeline (Tokenizer.tokenize line) = [st] ->
             extractRedirections st = ("exit" :: args, r) ->
             mainBody os line w = (Continue, w)).
  { intros os line w st args r Hne Hs He.
    rewrite (mainBody_single_stage os line w st ("exit" :: args) r Hs He eq_refl
               (Hx line Hne)).
    reflexivity. }
  assert (Hmulti : forall os line w,
             2 <= List.length (splitIntoPipeline (Tokenizer.tokenize line)) ->
             fst (mainBody os line w) = Continue).
  { intros os line w Hlen. rewrite mainBody_multi_stage by exact Hlen.
    reflexivity. }
  split; [exact Hstop|].
  split; [intros os line w Hne Hb; apply mainBody_break_iff in Hb;
          rewrite (Hx line Hne) in Hb; discriminate|].
  split; [exact Hgo|]. split; [exact Hargs|]. split; [exact Hmulti|].
  split; [|split; [|split; [|split; [reflexivity|]]]].
  - intros os line rest w Ht. cbn [mainLoop]. rewrite (Hstop _ _ _ Ht).
    reflexivity.
  - intros os line rest w Hne Hp. cbn [mainLoop].
    pose proof (Hgo os line (printPrompt w) Hne Hp) as Hc.
    destruct (mainBody os line (printPrompt w)) as [c w'].
    cbn [fst snd] in *. rewrite Hc. reflexivity.
  - intros os args w; reflexivity.
  - split; [|split; intros os w; apply Hmulti; vm_compute; lia].
    intros os w.
    apply (Hargs os "exit 1" w ["exit"; "1"] ["1"] no_redirection);
      vm_compute; [discriminate|reflexivity|reflexivity].
Qed.

Lemma exit_ends_session_only_alone_witness :
  Tokenizer.tokenize "exit" = [word "exit"]
  /\ mainBody os_sample "exit" world0 = (Break, world0)
  /\ Tokenizer.tokenize "exit now" <> [word "exit"]
  /\ fst (mainBody os_sample "exit now" world0) <> Break
  /\ fst (mainBody os_sample "exit now" world0) = Continue
  /\ mainBody os_sample "exit now" world0 = (Continue, world0)
  /\ fst (mainBody os_sample "exit | wc" world0) = Continue
  /\ mainLoop os_sample ["exit"; "ls"] world0 = printPrompt world0
  /\ mainLoop os_sample ["exit now"; "exit"] world0
     = mainLoop os_sample ["exit"]
         (snd (mainBody os_sample "exit now" (printPrompt world0))).
Proof.
  destruct exit_ends_session_only_alone
    as (Hstop & Hnb & Hgo & Hargs & Hmulti & Hlstop & Hlgo & _).
  assert (H1 : Tokenizer.tokenize "exit" = [word "exit"]) by reflexivity.
  assert (H2 : Tokenizer.tokenize "exit now" <> [word "exit"])
    by (vm_compute; discriminate).
  split; [exact H1|]. split; [exact (Hstop os_sample "exit" world0 H1)|].
  split; [exact H2|]. split; [exact (Hnb os_sample "exit now" world0 H2)|].
  split; [exact (Hgo os_sample "exit now" world0 H2 eq_refl)|].
  split; [exact (Hargs os_sample "exit now" world0 ["exit"; "now"] ["now"]
                       no_redirection H2 eq_refl eq_refl)|].
  split; [apply (Hmulti os_sample "exit | wc" world0); vm_compute; lia|].
  split; [exact (Hlstop os_sample "exit" ["ls"] world0 H1)|].
  exact (Hlgo os_sample "exit now" ["exit"] world0 H2 eq_refl).
Defined.

(* ================================================================= *)
(** ** The builtin [cd] *)

(** C8.  [cd] always returns, and is always reported as handled.
    Without an argument and with [HOME] unset (or empty), and whenever the
    directory it is asked to enter is refused, it writes one message to
    the error stream and changes nothing else, the working directory in
    particular; the read loop then goes on to the next line. *)
Theorem cd_failure_is_reported_and_handled :
  (forall os args w,
      exists w', Builtins.tryRunInParent os ("cd" :: args) w = Ok (true, w'))
  /\ (forall os w,
         getenv_or_empty os "HOME" = EmptyString ->
         Builtins.tryRunInParent os ["cd"] w
         = Ok (true, write_diag (Cerr ("cd: HOME not set" ++ nl)) w))
  /\ (forall os w what,
         getenv_or_empty os "HOME" <> EmptyString ->
         set_current_path os (cwd w) (getenv_or_empty os "HOME") = inr what ->
         Builtins.tryRunInParent os ["cd"] w
         = Ok (true, write_diag (Cerr ("cd: " ++ what ++ nl)) w))
  /\ (forall os dir more w what,
         set_current_path os (cwd w) dir = inr what ->
         Builtins.tryRunInParent os ("cd" :: dir :: more) w
         = Ok (true, write_diag (Cerr ("cd: " ++ what ++ nl)) w))
  /\ (forall d w,
         cwd (write_diag d w) = cwd w
         /\ cerr (write_diag d w) = cerr w ++ [d]
         /\ cout (write_diag d w) = cout w
         /\ spawned (write_diag d w) = spawned w
         /\ open_fds (write_diag d w) = open_fds w)
  /\ (forall os line w st args r,
         splitIntoPipeline (Tokenizer.tokenize line) = [st] ->
         extractRedirections st = ("cd" :: args, r) ->
         exists w',
           Builtins.tryRunInParent os ("cd" :: args) w = Ok (true, w')
           /\ mainBody os line w = (Continue, w')).
Proof.
  assert (Hh : forall os args w,
             exists w',
               Builtins.tryRunInParent os ("cd" :: args) w = Ok (true, w')).
  { intros os args w. unfold Builtins.tryRunInParent. cbn [String.eqb Ascii.eqb Bool.eqb].
    destruct args as [|dir more].
    - destruct (str_empty (getenv_or_empty os "HOME")); [eexists; reflexivity|].
      destruct (set_current_path os (cwd w) (getenv_or_empty os "HOME"));
        eexists; reflexivity.
    - destruct (set_current_path os (cwd w) dir); eexists; reflexivity. }
  split; [exact Hh|]. split; [|split; [|split; [|split]]].
  - intros os w Hhome. unfold Builtins.tryRunInParent; cbn [String.eqb Ascii.eqb Bool.eqb].
    rewrite Hhome; reflexivity.
  - intros os w what Hhome Hcd.
    unfold Builtins.tryRunInParent; cbn [String.eqb Ascii.eqb Bool.eqb].
    destruct (getenv_or_empty os "HOME") as [|c rest] eqn:E; [contradiction|].
    cbn [str_empty]. rewrite Hcd; reflexivity.
  - intros os dir more w what Hcd.
    unfold Builtins.tryRunInParent; cbn [String.eqb Ascii.eqb Bool.eqb].
    rewrite Hcd; reflexivity.
  - intros d w; repeat split.
  - intros os line w st args r Hs He.
    destruct (Hh os args w) as [w' Hw]. exists w'. split; [exact Hw|].
    rewrite (mainBody_single_stage os line w st ("cd" :: args) r Hs He eq_refl).
    + rewrite Hw. reflexivity.
    + destruct (is_bare_exit (Tokenizer.tokenize line)) eqn:E; [|reflexivity].
      apply is_bare_exit_iff in E. rewrite E in Hs.
      injection Hs as <-. discriminate He.
Qed.

Lemma cd_failure_is_reported_and_handled_witness :
  Builtins.tryRunInParent os_no_home ["cd"] world0
  = Ok (true, write_diag (Cerr ("cd: HOME not set" ++ nl)) world0)
  /\ Builtins.tryRunInParent os_sample ["cd"; "/nonexistent"] world0
     = Ok (true,
           write_diag
             (Cerr ("cd: filesystem error: cannot set current path" ++ nl))
             world0)
  /\ exists w',
       Builtins.tryRunInParent os_sample ["cd"; "/nonexistent"] world0
       = Ok (true, w')
       /\ mainBody os_sample "cd /nonexistent" world0 = (Continue, w').
Proof.
  destruct cd_failure_is_reported_and_handled
    as (_ & Hhome & _ & Hdir & _ & Hloop).
  split; [exact (Hhome os_no_home world0 eq_refl)|].
  split.
  - exact (Hdir os_sample "/nonexistent" [] world0
             "filesystem error: cannot set current path" eq_refl).
  - exact (Hloop os_sample "cd /nonexistent" world0 ["cd"; "/nonexistent"]
             ["/nonexistent"] no_redirection eq_refl eq_refl).
Defined.

(* ================================================================= *)
(** ** Operators without effect, empty words *)

(** The child of a Stage without pipe and without redirection makes one
    call, [execvp], and reports its failure. *)
Lemma child_plain (os : OS) (p : Z) (argv : Words) :
  Executor.child os p 0 1 [] argv no_redirection
  = if sys_execvp os (Executor.argv0 argv) argv
    then mkProcess p 0 [Execvp (Executor.argv0 argv) argv]
                   (Execs (Executor.argv0 argv) argv)
    else mkProcess p 0
           [Execvp (Executor.argv0 argv) argv;
            PerrorC ("execvp: " ++ Executor.argv0 argv)]
           (Exits 127).
Proof.
  unfold Executor.child, Executor.childBody.
  cbn -[Executor.argv0 String.append].
  destruct (sys_execvp os (Executor.argv0 argv) argv); reflexivity.
Qed.

(** C1 at the line [ls > files.txt].  The tokenizer delivers the
    operator, the splitter leaves it out of the Stage, and the
    extractor, which would have taken [files.txt] as the output file had
    the operator been kept, finds no redirection and passes the file
    name on as an argument: the child opens no file and runs [ls] with
    the argument [files.txt]. *)
Theorem split_drops_redirection_operator :
  Tokenizer.tokenize_fuel "ls > files.txt"
    = Some [word "ls"; op ">"; word "files.txt"]
  /\ splitIntoPipeline [word "ls"; op ">"; word "files.txt"]
     = [["ls"; "files.txt"]]
  /\ extractRedirections ["ls"; "files.txt"]
     = (["ls"; "files.txt"], no_redirection)
  /\ extractRedirections ["ls"; ">"; "files.txt"]
     = (["ls"], mkRedir EmptyString "files.txt" false)
  /\ (forall os w,
         spawned (snd (mainBody os "ls > files.txt" w))
         = match sys_fork os (fork_calls w) with
           | Some p =>
               spawned w
               ++ [if sys_execvp os "ls" ["ls"; "files.txt"]
                   then mkProcess p 0 [Execvp "ls" ["ls"; "files.txt"]]
                                  (Execs "ls" ["ls"; "files.txt"])
                   else mkProcess p 0
                          [Execvp "ls" ["ls"; "files.txt"];
                           PerrorC "execvp: ls"]
                          (Exits 127)]
           | None => spawned w
           end).
Proof.
  split; [|split; [|split; [|split]]].
  - vm_compute; reflexivity.
  - vm_compute; reflexivity.
  - vm_compute; reflexivity.
  - vm_compute; reflexivity.
  - intros os w.
    rewrite (mainBody_single_stage os "ls > files.txt" w ["ls"; "files.txt"]
               ["ls"; "files.txt"] no_redirection) by (vm_compute; reflexivity).
    change (Builtins.tryRunInParent os ["ls"; "files.txt"] w)
      with (@Ok (bool * World) (false, w)).
    cbv iota. cbn [snd].
    rewrite (runPipeline_single os ["ls"; "files.txt"] ["ls"; "files.txt"]
               no_redirection w) by (vm_compute; reflexivity).
    destruct (sys_fork os (fork_calls w)) as [p|]; [|reflexivity].
    rewrite child_plain. reflexivity.
Qed.

(** C9.  An [&] or [;] operator anywhere in a token sequence is left out
    by the splitter and ends no Stage: the output is that of the sequence
    without it.  The line [a ; b] is the one Stage [a b], which the
    interpreter runs as one process, the program [a] with the argument
    vector [a b]. *)
Theorem split_merges_across_inert_operators :
  (forall pre post,
      splitIntoPipeline (pre ++ op "&" :: post) = splitIntoPipeline (pre ++ post))
  /\ (forall pre post,
         splitIntoPipeline (pre ++ op ";" :: post) = splitIntoPipeline (pre ++ post))
  /\ Tokenizer.tokenize_fuel "a ; b" = Some [word "a"; op ";"; word "b"]
  /\ splitIntoPipeline (Tokenizer.tokenize "a ; b") = [["a"; "b"]]
  /\ splitIntoPipeline (Tokenizer.tokenize "a & b") = [["a"; "b"]]
  /\ extractRedirections ["a"; "b"] = (["a"; "b"], no_redirection)
  /\ (forall os w,
         spawned (snd (mainBody os "a ; b" w))
         = match sys_fork os (fork_calls w) with
           | Some p =>
               spawned w
               ++ [if sys_execvp os "a" ["a"; "b"]
                   then mkProcess p 0 [Execvp "a" ["a"; "b"]]
                                  (Execs "a" ["a"; "b"])
                   else mkProcess p 0
                          [Execvp "a" ["a"; "b"]; PerrorC "execvp: a"]
                          (Exits 127)]
           | None => spawned w
           end).
Proof.
  split; [|split; [|split; [|split; [|split; [|split]]]]].
  - intros pre post; apply split_skips_operator; [reflexivity|discriminate].
  - intros pre post; apply split_skips_operator; [reflexivity|discriminate].
  - vm_compute; reflexivity.
  - vm_compute; reflexivity.
  - vm_compute; reflexivity.
  - vm_compute; reflexivity.
  - intros os w.
    rewrite (mainBody_single_stage os "a ; b" w ["a"; "b"] ["a"; "b"]
               no_redirection) by (vm_compute; reflexivity).
    change (Builtins.tryRunInParent os ["a"; "b"] w)
      with (@Ok (bool * World) (false, w)).
    cbv iota. cbn [snd].
    rewrite (runPipeline_single os ["a"; "b"] ["a"; "b"] no_redirection w)
      by (vm_compute; reflexivity).
    destruct (sys_fork os (fork_calls w)) as [p|]; [|reflexivity].
    rewrite child_plain. reflexivity.
Qed.

(** C10.  A line that is an empty pair of quotes, single or double, is
    one Word token with the empty text.  Its Stage is the one-element
    argument list of the empty string, which is not empty, so the Stage is
    not skipped: no builtin takes it, and the executor forks a child that
    calls [execvp] with the empty program name and, when that call fails,
    leaves with status 127. *)
Theorem empty_quotes_run_empty_program :
  Tokenizer.tokenize_fuel line_empty_squotes = Some [word EmptyString]
  /\ Tokenizer.tokenize_fuel line_empty_dquotes = Some [word EmptyString]
  /\ splitIntoPipeline [word EmptyString] = [[EmptyString]]
  /\ extractRedirections [EmptyString] = ([EmptyString], no_redirection)
  /\ vec_empty [EmptyString] = false
  /\ (forall os w,
         Builtins.tryRunInParent os [EmptyString] w = Ok (false, w))
  /\ (forall os w line,
         line = line_empty_squotes \/ line = line_empty_dquotes ->
         sys_execvp os EmptyString [EmptyString] = false ->
         spawned (snd (mainBody os line w))
         = match sys_fork os (fork_calls w) with
           | Some p =>
               spawned w
               ++ [mkProcess p 0
                     [Execvp EmptyString [EmptyString]; PerrorC "execvp: "]
                     (Exits 127)]
           | None => spawned w
           end).
Proof.
  split; [|split; [|split; [|split; [|split; [|split]]]]].
  - vm_compute; reflexivity.
  - vm_compute; reflexivity.
  - vm_compute; reflexivity.
  - vm_compute; reflexivity.
  - reflexivity.
  - intros os w; reflexivity.
  - intros os w line Hline Hexec.
    assert (Hm : mainBody os line w
                 = (Continue, snd (Executor.runPipeline os [[EmptyString]] w))).
    { destruct Hline as [-> | ->].
      - rewrite (mainBody_single_stage os line_empty_squotes w [EmptyString]
                   [EmptyString] no_redirection) by (vm_compute; reflexivity).
        reflexivity.
      - rewrite (mainBody_single_stage os line_empty_dquotes w [EmptyString]
                   [EmptyString] no_redirection) by (vm_compute; reflexivity).
        reflexivity. }
    rewrite Hm; cbn [snd].
    etransitivity;
      [apply (runPipeline_single os [EmptyString] [EmptyString] no_redirection w);
       vm_compute; reflexivity|].
    destruct (sys_fork os (fork_calls w)) as [p|]; [|reflexivity].
    rewrite child_plain. cbn [Executor.argv0 hd]. rewrite Hexec. reflexivity.
Qed.

Lemma empty_quotes_run_empty_program_witness :
  sys_execvp os_sample EmptyString [EmptyString] = false
  /\ spawned (snd (mainBody os_sample line_empty_squotes world0))
     = [mkProcess 100 0
          [Execvp EmptyString [EmptyString]; PerrorC "execvp: "]
          (Exits 127)].
Proof.
  destruct empty_quotes_run_empty_program as (_ & _ & _ & _ & _ & _ & Hrun).
  split; [vm_compute; reflexivity|].
  exact (Hrun os_sample world0 line_empty_squotes (or_introl eq_refl) eq_refl).
Defined.

(* ================================================================= *)
(** ** The status of a pipeline, and its descriptors *)

(** Take a run of [runPipeline] that creates its pipes and its
    processes, on a pipeline whose last Stage holds a command.  The last
    process created is the one of the last Stage, and when the wait for it
    succeeds and stores the status [st], the value returned is the exit
    status that [st] encodes if the process exited, and -1 if it ended
    otherwise. *)
Lemma runPipeline_returns_last_status
        (os : OS) (front : list Words) (lastStage : Words) (w : World)
        (pipefds : list Z) (w1 : World) (pids : list Z) (w2 : World) :
  let pipeline := front ++ [lastStage] in
  Executor.createPipes os (List.length pipeline - 1) [] w = (Some pipefds, w1) ->
  Executor.spawnStages os (List.length pipeline) pipefds pipeline 0 [] w1
    = (Some pids, w2) ->
  vec_empty (fst (extractRedirections lastStage)) = false ->
  exists (p : Z) (earlier : list Z) (proc : Process) (older : list Process),
    pids = earlier ++ [p]
    /\ spawned w2 = older ++ [proc]
    /\ pid proc = p
    /\ stage proc = List.length front
    /\ forall st,
        sys_waitpid os p = Some st ->
        fst (Executor.runPipeline os pipeline w)
        = if WIFEXITED os st then WEXITSTATUS os st else (-1)%Z.
Proof.
  intros pipeline Hpipes Hspawn Hcmd.
  pose proof Hspawn as Hsp. unfold pipeline in Hsp.
  rewrite spawnStages_app in Hsp.
  destruct (Executor.spawnStages os (List.length (front ++ [lastStage]))
              pipefds front 0 [] w1) as [[earlier|] w'] eqn:Hfront;
    [|discriminate].
  cbn [Executor.spawnStages] in Hsp.
  destruct (extractRedirections lastStage) as [argv r] eqn:He.
  cbn [fst] in Hcmd. rewrite Hcmd in Hsp.
  destruct (sys_fork os (fork_calls w')) as [p|]; [|discriminate].
  injection Hsp as <- <-.
  exists p, earlier,
    (Executor.child os p (0 + List.length front)
       (List.length (front ++ [lastStage])) pipefds argv r),
    (spawned w').
  split; [reflexivity|]. split; [reflexivity|].
  split; [unfold Executor.child; destruct (Executor.childBody _ _ _ _ _ _); reflexivity|].
  split; [unfold Executor.child; destruct (Executor.childBody _ _ _ _ _ _); reflexivity|].
  intros st Hwait. unfold Executor.runPipeline.
  assert (Hne : vec_empty pipeline = false).
  { unfold pipeline; destruct front; reflexivity. }
  rewrite Hne, Hpipes, Hspawn.
  pose proof (waitAll_last os earlier p st Hwait 0%Z
                (Executor.closeAll pipefds
                   (forked (Executor.child os p (0 + List.length front)
                              (List.length (front ++ [lastStage])) pipefds argv r)
                           w'))) as Hlast.
  destruct (Executor.waitAll os (earlier ++ [p]) 0 _) as [status w4].
  cbn [fst] in Hlast; subst status.
  destruct (WIFEXITED os st); reflexivity.
Qed.

Lemma runPipeline_returns_last_status_witness :
  exists (p : Z) (earlier : list Z) (proc : Process) (older : list Process),
    [100; 101]%Z = earlier ++ [p]
    /\ spawned (snd (Executor.spawnStages os_sample 2 [3; 4]%Z
                       [["false"]; ["wc"; "-l"]] 0 []
                       (opened_pipe 3 4 world0)))
       = older ++ [proc]
    /\ pid proc = p
    /\ stage proc = 1
    /\ forall st,
        sys_waitpid os_sample p = Some st ->
        fst (Executor.runPipeline os_sample [["false"]; ["wc"; "-l"]] world0)
        = if WIFEXITED os_sample st then WEXITSTATUS os_sample st else (-1)%Z.
Proof.
  apply (runPipeline_returns_last_status os_sample [["false"]] ["wc"; "-l"]
           world0 [3; 4]%Z (opened_pipe 3 4 world0) [100; 101]%Z).
  - vm_compute; reflexivity.
  - vm_compute; reflexivity.
  - vm_compute; reflexivity.
Defined.


(** On the path of a failed [fork] no descriptor of the pipes is open
    when [runPipeline] returns. *)
Lemma failed_fork_closes_pipes (os : OS) (n idx : nat) (pipefds : list Z)
      (stages : list Words) :
  forall pids w w',
    Executor.spawnStages os n pipefds stages idx pids w = (None, w') ->
    forall fd, In fd pipefds -> ~ In fd (open_fds w').
Proof.
  revert idx; induction stages as [|st rest IH]; intros idx pids w w' H fd Hfd;
    cbn [Executor.spawnStages] in H; [discriminate|].
  destruct (extractRedirections st) as [argv r].
  destruct (vec_empty argv); [exact (IH _ _ _ _ H fd Hfd)|].
  destruct (sys_fork os (fork_calls w)) as [p|]; [exact (IH _ _ _ _ H fd Hfd)|].
  injection H as <-. intros Hin.
  apply closeAll_open_fds in Hin as [_ Hn]. contradiction.
Qed.

(** C5 at a pipeline of three Stages when the second [pipe] fails.
    [runPipeline] returns -1, no process has been created, and the two
    descriptors of the first pipe, 3 and 4, are still open. *)
Theorem failed_pipe_leaves_descriptors_open :
  Executor.runPipeline os_second_pipe_fails [["a"]; ["b"]; ["c"]] world0
  = ((-1)%Z,
     mkWorld "/" EmptyString [Perror "pipe"] [3; 4]%Z 2 0 [] [])
  /\ open_fds
       (snd (Executor.runPipeline os_second_pipe_fails
               [["a"]; ["b"]; ["c"]] world0))
     = [3; 4]%Z
  /\ spawned
       (snd (Executor.runPipeline os_second_pipe_fails
               [["a"]; ["b"]; ["c"]] world0))
     = [].
Proof. repeat split; vm_compute; reflexivity. Qed.

(* ================================================================= *)
(** ** The redirection extractor *)

Section Extractor.

Lemma last_cons {A : Type} (x : A) (l : list A) (d : A) :
  last (x :: l) d = last l x.
Proof.
  revert x d; induction l as [|y l IH]; intros x d; [reflexivity|].
  change (last (x :: y :: l) d) with (last (y :: l) d).
  rewrite (IH y d), (IH y x); reflexivity.
Qed.

(** Laying redirections over a descriptor keeps, for each direction, the
    last one, and the descriptor's own value where there is none. *)
Lemma overlay_last (l : list Item) :
  forall r,
    overlay r l
    = mkRedir (last (map trim (inputs_of l)) (stdin_file r))
              (last (map (fun o => trim (snd o)) (outputs_of l)) (stdout_file r))
              (last (map fst (outputs_of l)) (stdout_append r)).
Proof.
  induction l as [|i l IH]; intros r.
  - destruct r; reflexivity.
  - change (overlay r (i :: l)) with
      (overlay (match i with
                | RedirIn f => mkRedir (trim f) (stdout_file r) (stdout_append r)
                | RedirOut a f => mkRedir (stdin_file r) (trim f) a
                | _ => r
                end) l).
    rewrite IH. destruct i as [s|f|a f|o]; cbn [inputs_of outputs_of flat_map app map
                                              stdin_file stdout_file stdout_append fst snd];
      rewrite ?last_cons; reflexivity.
Qed.

Lemma extract_loop_cons (t : string) (rest argv : Words) (r : RedirectionInfo) :
  extract_loop (t :: rest) argv r
  = if (t =? "<")%string then
      match rest with
      | f :: rest' =>
          extract_loop rest' argv
            (mkRedir (trim f) (stdout_file r) (stdout_append r))
      | [] => (argv, r)
      end
    else if (t =? ">")%string || (t =? ">>")%string then
      match rest with
      | f :: rest' =>
          extract_loop rest' argv
            (mkRedir (stdin_file r) (trim f) (t =? ">>")%string)
      | [] => (argv, r)
      end
    else extract_loop rest (argv ++ [t]) r.
Proof. destruct rest; reflexivity. Qed.

Lemma items_cons (t : string) (rest : Words) :
  items (t :: rest)
  = if is_redir_op t then
      match rest with
      | [] => [Dangling t]
      | f :: rest' =>
          (if (t =? "<")%string then RedirIn f
           else RedirOut (t =? ">>")%string f) :: items rest'
      end
    else Arg t :: items rest.
Proof. destruct rest; reflexivity. Qed.

(** The loop of the extractor, from any state it can be in: the arguments
    of the rest are appended, its redirections laid over the descriptor. *)
Lemma extract_loop_items (ws : Words) :
  (forall argv r,
      extract_loop ws argv r
      = (argv ++ args_of (items ws), overlay r (items ws)))
  /\ (forall t argv r,
         extract_loop (t :: ws) argv r
         = (argv ++ args_of (items (t :: ws)), overlay r (items (t :: ws)))).
Proof.
  induction ws as [|a ws [IH1 IH2]].
  - split.
    + intros argv r; simpl; rewrite app_nil_r; reflexivity.
    + intros t argv r. rewrite extract_loop_cons, items_cons. unfold is_redir_op.
      destruct (t =? "<")%string; [simpl; rewrite app_nil_r; reflexivity|].
      destruct (t =? ">")%string; [simpl; rewrite app_nil_r; reflexivity|].
      destruct (t =? ">>")%string; simpl; [rewrite app_nil_r|]; reflexivity.
  - split; [exact (IH2 a)|].
    intros t argv r. rewrite extract_loop_cons, (items_cons t). unfold is_redir_op.
    destruct (t =? "<")%string; [rewrite IH1; reflexivity|].
    destruct (t =? ">")%string; [rewrite IH1; reflexivity|].
    destruct (t =? ">>")%string; cbn [orb]; [rewrite IH1; reflexivity|].
    rewrite IH2. cbn [args_of flat_map]. rewrite <- app_assoc. reflexivity.
Qed.

Lemma items_plain_app (args rest : Words) :
  forallb plain args = true ->
  items (args ++ rest) = map Arg args ++ items rest.
Proof.
  induction args as [|a args IH]; intros H; [reflexivity|].
  cbn [forallb] in H. apply andb_prop in H as [Ha Hr].
  cbn [app items map]. unfold plain in Ha.
  destruct (is_redir_op a); [discriminate|].
  rewrite IH by exact Hr. reflexivity.
Qed.

Lemma args_of_app (l1 l2 : list Item) :
  args_of (l1 ++ l2) = args_of l1 ++ args_of l2.
Proof. apply flat_map_app. Qed.

Lemma overlay_app (l1 l2 : list Item) (r : RedirectionInfo) :
  overlay r (l1 ++ l2) = overlay (overlay r l1) l2.
Proof. apply fold_left_app. Qed.

Lemma args_of_plain (args : Words) : args_of (map Arg args) = args.
Proof. induction args as [|a args IH]; simpl; [|rewrite IH]; reflexivity. Qed.

Lemma overlay_plain (args : Words) (r : RedirectionInfo) :
  overlay r (map Arg args) = r.
Proof. revert r; induction args as [|a args IH]; intros r; simpl; [|apply IH]; reflexivity. Qed.

End Extractor.

Section ExtractorScan.

Lemma extractRedirections_overlay (ws : Words) :
  extractRedirections ws
  = (args_of (items ws), overlay no_redirection (items ws)).
Proof.
  unfold extractRedirections.
  destruct (extract_loop_items ws) as [H _]. rewrite H. reflexivity.
Qed.

Lemma items_plain (args : Words) :
  forallb plain args = true -> items args = map Arg args.
Proof.
  intros H. rewrite <- (app_nil_r args) at 1.
  rewrite items_plain_app by exact H. apply app_nil_r.
Qed.

(** A Stage with one redirection among arguments. *)
Lemma extract_one_redirection (args more : Words) (o f : string) :
  forallb plain args = true -> forallb plain more = true ->
  is_redir_op o = true ->
  extractRedirections (args ++ o :: f :: more)
  = (args ++ more,
     if (o =? "<")%string then mkRedir (trim f) EmptyString false
     else mkRedir EmptyString (trim f) (o =? ">>")%string).
Proof.
  intros Ha Hm Ho. rewrite extractRedirections_overlay.
  rewrite items_plain_app by exact Ha. rewrite items_cons, Ho.
  rewrite (items_plain more Hm).
  rewrite args_of_app, overlay_app, overlay_plain, args_of_plain.
  destruct (o =? "<")%string.
  - cbn [args_of flat_map app]. fold (args_of (map Arg more)).
    rewrite args_of_plain.
    change (overlay no_redirection (RedirIn f :: map Arg more))
      with (overlay (mkRedir (trim f) EmptyString false) (map Arg more)).
    rewrite overlay_plain. reflexivity.
  - cbn [args_of flat_map app]. fold (args_of (map Arg more)).
    rewrite args_of_plain.
    change (overlay no_redirection (RedirOut (o =? ">>")%string f :: map Arg more))
      with (overlay (mkRedir EmptyString (trim f) (o =? ">>")%string)
                    (map Arg more)).
    rewrite overlay_plain. reflexivity.
Qed.

End ExtractorScan.

(** C4.  The extractor reads a Stage as the specification says.  Its
    result is the arguments of the Stage in order, and a descriptor that
    holds the trimmed file name of the last input redirection and of the
    last output redirection, the append flag being set exactly when the
    latter was written [>>]; an operator with nothing after it adds
    nothing.  Four cases are spelled out on the code: one redirection among
    arguments, an operator at the very end, two redirections of one
    direction, and arguments only. *)
Theorem extractRedirections_scan :
  (forall ws,
      extractRedirections ws
      = (args_of (items ws), redirections_of (items ws)))
  /\ (forall args more o f,
         forallb plain args = true -> forallb plain more = true ->
         is_redir_op o = true ->
         extractRedirections (args ++ o :: f :: more)
         = (args ++ more,
            if (o =? "<")%string then mkRedir (trim f) EmptyString false
            else mkRedir EmptyString (trim f) (o =? ">>")%string))
  /\ (forall args o,
         forallb plain args = true -> is_redir_op o = true ->
         extractRedirections (args ++ [o]) = (args, no_redirection))
  /\ (forall args f1 f2,
         forallb plain args = true ->
         extractRedirections ("<" :: f1 :: args ++ ["<"; f2])
         = (args, mkRedir (trim f2) EmptyString false))
  /\ (forall args o1 o2 f1 f2,
         forallb plain args = true ->
         o1 = ">" \/ o1 = ">>" -> o2 = ">" \/ o2 = ">>" ->
         extractRedirections (o1 :: f1 :: args ++ [o2; f2])
         = (args, mkRedir EmptyString (trim f2) (o2 =? ">>")%string))
  /\ (forall args,
         forallb plain args = true ->
         extractRedirections args = (args, no_redirection)).
Proof.
  split; [|split; [|split; [|split; [|split]]]].
  - intros ws. rewrite extractRedirections_overlay, overlay_last. reflexivity.
  - exact extract_one_redirection.
  - intros args o Ha Ho. rewrite extractRedirections_overlay.
    rewrite items_plain_app by exact Ha. rewrite items_cons, Ho.
    rewrite args_of_app, overlay_app, overlay_plain, args_of_plain.
    cbn. rewrite app_nil_r. reflexivity.
  - intros args f1 f2 Ha. rewrite extractRedirections_overlay.
    rewrite items_cons. cbn [is_redir_op String.eqb Ascii.eqb Bool.eqb orb].
    rewrite items_plain_app by exact Ha.
    change (RedirIn f1 :: map Arg args ++ items ["<"; f2])
      with ([RedirIn f1] ++ map Arg args ++ [RedirIn f2]).
    rewrite !args_of_app, !overlay_app, overlay_plain, args_of_plain.
    cbn. rewrite app_nil_r. reflexivity.
  - intros args o1 o2 f1 f2 Ha H1 H2. rewrite extractRedirections_overlay.
    assert (E1 : items (o1 :: f1 :: args ++ [o2; f2])
                 = [RedirOut (o1 =? ">>")%string f1]
                     ++ items (args ++ [o2; f2])).
    { rewrite items_cons. destruct H1 as [-> | ->]; reflexivity. }
    assert (E2 : items [o2; f2] = [RedirOut (o2 =? ">>")%string f2]).
    { destruct H2 as [-> | ->]; reflexivity. }
    rewrite E1, items_plain_app, E2 by exact Ha.
    rewrite !args_of_app, !overlay_app, overlay_plain, args_of_plain.
    cbn. rewrite app_nil_r. reflexivity.
  - intros args Ha. rewrite extractRedirections_overlay, (items_plain args Ha).
    rewrite args_of_plain, overlay_plain. reflexivity.
Qed.

Lemma extractRedirections_scan_witness :
  extractRedirections (["sort"; "-r"] ++ ">>" :: " log.txt " :: ["-u"])
  = (["sort"; "-r"; "-u"], mkRedir EmptyString "log.txt" true)
  /\ extractRedirections (["cat"] ++ ["<"]) = (["cat"], no_redirection)
  /\ extractRedirections ("<" :: "a" :: ["cat"] ++ ["<"; "b"])
     = (["cat"], mkRedir "b" EmptyString false)
  /\ extractRedirections (">>" :: "a" :: ["ls"] ++ [">"; "b"])
     = (["ls"], mkRedir EmptyString "b" false)
  /\ extractRedirections ["ls"; "-l"] = (["ls"; "-l"], no_redirection).
Proof.
  destruct extractRedirections_scan as (_ & Hone & Hend & Hin & Hout & Hargs).
  split; [exact (Hone ["sort"; "-r"] ["-u"] ">>" " log.txt "
                      eq_refl eq_refl eq_refl)|].
  split; [exact (Hend ["cat"] "<" eq_refl eq_refl)|].
  split; [exact (Hin ["cat"] "a" "b" eq_refl)|].
  split; [exact (Hout ["ls"] ">>" ">" "a" "b" eq_refl
                      (or_intror eq_refl) (or_introl eq_refl))|].
  exact (Hargs ["ls"; "-l"] eq_refl).
Defined.

(* ================================================================= *)
(** * Further properties *)

(** ** trim *)

Section Trim.

Lemma substring_zero (s : string) : forall a, substring a 0 s = EmptyString.
Proof.
  induction s as [|c r IH]; intros a; destruct a; simpl; try reflexivity.
  apply IH.
Qed.

Lemma substring_whole (s : string) : substring 0 (String.length s) s = s.
Proof. induction s as [|c r IH]; simpl; [|rewrite IH]; reflexivity. Qed.

Lemma substring_length (s : string) :
  forall a n, a + n <= String.length s ->
    String.length (substring a n s) = n.
Proof.
  induction s as [|c r IH]; intros a n H; simpl in H.
  - assert (n = 0) by lia; subst; destruct a; reflexivity.
  - destruct a as [|a]; simpl.
    + destruct n as [|n]; [reflexivity|]. simpl. rewrite IH; [reflexivity|lia].
    + apply IH; lia.
Qed.

Lemma char_at_substring (s : string) (a n i : nat) :
  i < n -> char_at (substring a n s) i = char_at s (a + i).
Proof.
  intros H. unfold char_at.
  rewrite (substring_correct1 s a n i H), Nat.add_comm. reflexivity.
Qed.

(** Where the second loop of [trim] stops above [a], the character below
    is not white space. *)
Lemma trim_right_stop (s : string) (a : nat) :
  forall b, a < trim_right s a b ->
    isspace (char_at s (trim_right s a b - 1)) = false.
Proof.
  induction b as [|b IH]; cbn [trim_right]; [lia|].
  destruct (a <? S b)%nat eqn:Hlt; cbn [andb].
  - destruct (isspace (char_at s b)) eqn:Hsp; [exact IH|].
    intros _. replace (S b - 1) with b by lia. exact Hsp.
  - apply Nat.ltb_ge in Hlt. lia.
Qed.

(** The two cursors of [trim] and what they bound. *)
Lemma trim_bounds (s : string) :
  let a := trim_left s 0 (String.length s) in
  let b := trim_right s a (String.length s) in
  a <= b <= String.length s
  /\ (a < String.length s -> isspace (char_at s a) = false)
  /\ (a < b -> isspace (char_at s (b - 1)) = false)
  /\ (forall i, i < a -> isspace (char_at s i) = true).
Proof.
  cbv zeta.
  destruct (trim_left_exit s (String.length s) 0) as (Ha & Hall & Hstop);
    [lia|lia|].
  destruct (trim_right_exit s (trim_left s 0 (String.length s))
              (String.length s)) as (Hb & _); [lia|].
  split; [lia|]. split; [exact Hstop|]. split; [apply trim_right_stop|].
  intros i Hi; apply Hall; lia.
Qed.

Lemma all_chars_char_at (p : ascii -> bool) (s : string) :
  all_chars p s = true <->
  (forall i, i < String.length s -> p (char_at s i) = true).
Proof.
  induction s as [|c r IH]; simpl.
  - split; [intros _ i Hi; lia|reflexivity].
  - split.
    + intros H i Hi. apply andb_prop in H as [Hc Hr].
      destruct i as [|i]; [exact Hc|].
      rewrite char_at_succ. apply IH; [exact Hr|lia].
    + intros H. apply andb_true_intro. split.
      * apply (H 0); lia.
      * apply IH. intros i Hi. rewrite <- (char_at_succ c). apply H; lia.
Qed.

(** A string that is empty, or starts and ends on characters that are not
    white space, is returned as it is. *)
Lemma trim_fixed (t : string) :
  (t <> EmptyString ->
   isspace (char_at t 0) = false
   /\ isspace (char_at t (String.length t - 1)) = false) ->
  trim t = t.
Proof.
  intros H. destruct t as [|c r]; [reflexivity|].
  destruct H as [H0 Hl]; [discriminate|].
  unfold trim.
  assert (Ea : trim_left (String c r) 0 (String.length (String c r)) = 0).
  { cbn [String.length trim_left]. rewrite H0, andb_false_r. reflexivity. }
  rewrite Ea.
  assert (Eb : trim_right (String c r) 0 (String.length (String c r))
               = String.length (String c r)).
  { cbn [String.length trim_right].
    cbn [String.length] in Hl. replace (S (String.length r) - 1)
      with (String.length r) in Hl by lia.
    rewrite Hl, andb_false_r. reflexivity. }
  rewrite Eb, Nat.sub_0_r. apply substring_whole.
Qed.

End Trim.

Lemma trim_empty_all_space_iff (s : string) :
  trim s = EmptyString <-> all_chars isspace s = true.
Proof.
  rewrite all_chars_char_at. split.
  - intros H. apply trim_empty_all_space. rewrite H. reflexivity.
  - intros Hall. unfold trim.
    destruct (trim_bounds s) as (Hab & Hstop & _ & _).
    set (a := trim_left s 0 (String.length s)) in *.
    set (b := trim_right s a (String.length s)) in *.
    destruct (Nat.lt_ge_cases a (String.length s)) as [Hlt|Hge].
    + rewrite (Hall a Hlt) in Hstop. specialize (Hstop Hlt). discriminate.
    + replace (b - a) with 0 by lia. apply substring_zero.
Qed.

(** X1.  [trim] returns the empty string exactly on the strings that hold
    white space only (the empty string among them). *)
Theorem trim_empty_iff (s : string) :
  trim s = EmptyString <-> all_chars isspace s = true.
Proof. exact (trim_empty_all_space_iff s). Qed.

Lemma trim_empty_iff_witness :
  all_chars isspace "   " = true /\ trim "   " = EmptyString.
Proof.
  destruct (trim_empty_iff "   ") as [_ H].
  split; [reflexivity|exact (H eq_refl)].
Defined.

(** X2.  What [trim] returns neither starts nor ends with white space, and
    it is returned unchanged by a second [trim]. *)
Theorem trim_idempotent (s : string) :
  (trim s <> EmptyString ->
   isspace (char_at (trim s) 0) = false
   /\ isspace (char_at (trim s) (String.length (trim s) - 1)) = false)
  /\ trim (trim s) = trim s.
Proof.
  assert (H : trim s <> EmptyString ->
              isspace (char_at (trim s) 0) = false
              /\ isspace (char_at (trim s) (String.length (trim s) - 1)) = false).
  { unfold trim.
    destruct (trim_bounds s) as (Hab & Hstop & Hend & _).
    set (a := trim_left s 0 (String.length s)) in *.
    set (b := trim_right s a (String.length s)) in *.
    intros Hne.
    assert (Hlt : a < b).
    { destruct (Nat.lt_ge_cases a b) as [Hl|Hg]; [exact Hl|].
      exfalso. apply Hne. replace (b - a) with 0 by lia. apply substring_zero. }
    rewrite substring_length by lia.
    rewrite !char_at_substring by lia.
    rewrite Nat.add_0_r. replace (a + (b - a - 1)) with (b - 1) by lia.
    split; [apply Hstop; lia|apply Hend; exact Hlt]. }
  split; [exact H|]. apply trim_fixed. exact H.
Qed.

Lemma trim_idempotent_witness :
  trim "  ls -l  " = "ls -l"
  /\ isspace (char_at (trim "  ls -l  ") 0) = false
  /\ trim (trim "  ls -l  ") = trim "  ls -l  ".
Proof.
  destruct (trim_idempotent "  ls -l  ") as [H1 H2].
  destruct H1 as [Ha _]; [vm_compute; discriminate|].
  split; [vm_compute; reflexivity|]. split; [exact Ha|exact H2].
Defined.

(* ================================================================= *)
(** ** The tokenizer, further *)

Section TokenizerFacts.

Import Tokenizer.

Lemma string_app_assoc (a b c : string) :
  ((a ++ b) ++ c = a ++ (b ++ c))%string.
Proof. induction a as [|x a IH]; simpl; [|rewrite IH]; reflexivity. Qed.

Lemma string_app_nil_r (a : string) : (a ++ EmptyString)%string = a.
Proof. induction a as [|x a IH]; simpl; [|rewrite IH]; reflexivity. Qed.

Lemma string_app_length (a b : string) :
  String.length (a ++ b) = String.length a + String.length b.
Proof. induction a as [|x a IH]; simpl; [|rewrite IH]; reflexivity. Qed.

Lemma push_back_app (out : string) (c : ascii) (s : string) :
  (push_back out c ++ s = out ++ String c s)%string.
Proof. unfold push_back. rewrite string_app_assoc. reflexivity. Qed.

Lemma skipWhitespace_stops (s : string) (c : ascii) (r : string) :
  skipWhitespace s = String c r -> isspace c = false.
Proof.
  induction s as [|d s IH]; simpl; [discriminate|].
  destruct (isspace d) eqn:E; [exact IH|].
  intros H; injection H as <- _; exact E.
Qed.

Lemma skipWhitespace_empty (s : string) :
  skipWhitespace s = EmptyString -> all_chars isspace s = true.
Proof.
  induction s as [|d s IH]; simpl; [reflexivity|].
  destruct (isspace d); [exact IH|discriminate].
Qed.

(** The loop of [tokenize] only appends to [out]. *)
Lemma tokenize_loop_extends (fuel : nat) :
  forall rest out toks,
    tokenize_loop fuel rest out = Some toks ->
    exists more, toks = out ++ more.
Proof.
  induction fuel as [|fuel IH]; intros rest out toks H; [discriminate|].
  cbn [tokenize_loop] in H.
  destruct (eof (skipWhitespace rest)).
  { injection H as <-. exists []. rewrite app_nil_r; reflexivity. }
  destruct (isOperatorStart (peek (skipWhitespace rest))).
  - destruct (readOperator (skipWhitespace rest)) as [t r].
    apply IH in H as [more ->]. exists (mkToken Op t :: more).
    rewrite <- app_assoc; reflexivity.
  - destruct (readWord _ _) as [[t r]|]; [|discriminate].
    apply IH in H as [more ->]. exists (mkToken Word t :: more).
    rewrite <- app_assoc; reflexivity.
Qed.

Lemma isOperatorStart_cases (c : ascii) :
  isOperatorStart c = true ->
  c = "|"%char \/ c = ">"%char \/ c = "<"%char \/ c = "&"%char \/ c = ";"%char.
Proof.
  unfold isOperatorStart. intros H.
  repeat (apply orb_prop in H as [H|H]);
    apply Ascii.eqb_eq in H; auto.
Qed.

Lemma readOperator_text (c : ascii) (r : string) :
  isOperatorStart c = true ->
  In (fst (readOperator (String c r))) op_texts.
Proof.
  intros H. apply isOperatorStart_cases in H.
  destruct H as [-> | [-> | [-> | [-> | ->]]]]; unfold readOperator, op_texts;
    cbn [get Ascii.eqb Bool.eqb andb fst]; try (simpl; tauto).
  destruct r as [|d r]; cbn [eof str_empty negb andb peek]; [simpl; tauto|].
  destruct (Ascii.eqb d ">"); simpl; tauto.
Qed.

(** An invariant of the tokens of [out] is one of the result, when
    every operator read satisfies it and every word does. *)
Lemma tokenize_loop_forall (P : Token -> Prop) :
  (forall t, In t op_texts -> P (mkToken Op t)) ->
  (forall t, P (mkToken Word t)) ->
  forall fuel rest out toks,
    tokenize_loop fuel rest out = Some toks ->
    Forall P out -> Forall P toks.
Proof.
  intros Hop Hword.
  induction fuel as [|fuel IH]; intros rest out toks H Hout; [discriminate|].
  cbn [tokenize_loop] in H.
  destruct (skipWhitespace rest) as [|c r] eqn:Es; cbn [eof str_empty peek] in H.
  { injection H as <-; exact Hout. }
  destruct (isOperatorStart c) eqn:Ec.
  - pose proof (readOperator_text c r Ec) as Ht.
    destruct (readOperator (String c r)) as [t r']. cbn [fst] in Ht.
    apply (IH _ _ _ H). apply Forall_app; split; [exact Hout|].
    constructor; [apply Hop; exact Ht|constructor].
  - destruct (readWord _ _) as [[t r']|]; [|discriminate].
    apply (IH _ _ _ H). apply Forall_app; split; [exact Hout|].
    constructor; [apply Hword|constructor].
Qed.

End TokenizerFacts.

(** X3.  A line has no token exactly when [trim] makes it empty: the
    lines that [main] skips as blank are the lines without tokens. *)
Theorem tokenize_nil_iff_blank (line : string) :
  Tokenizer.tokenize line = [] <-> trim line = EmptyString.
Proof.
  split.
  - intros H. apply trim_empty_all_space_iff.
    pose proof (tokenize_fuel_total line) as Ht. rewrite H in Ht.
    unfold Tokenizer.tokenize_fuel in Ht. cbn [Tokenizer.tokenize_loop] in Ht.
    destruct (Tokenizer.skipWhitespace line) as [|c r] eqn:Es.
    + apply skipWhitespace_empty; exact Es.
    + exfalso. cbn [Tokenizer.eof str_empty Tokenizer.peek] in Ht.
      destruct (Tokenizer.isOperatorStart c).
      * destruct (Tokenizer.readOperator (String c r)) as [t r'].
        apply tokenize_loop_extends in Ht as [more Hm].
        destruct more; discriminate.
      * destruct (Tokenizer.readWord _ _) as [[t r']|]; [|discriminate].
        apply tokenize_loop_extends in Ht as [more Hm].
        destruct more; discriminate.
  - intros H. apply blank_line_no_tokens. rewrite H. reflexivity.
Qed.

Lemma tokenize_nil_iff_blank_witness :
  trim "  " = EmptyString /\ Tokenizer.tokenize "  " = [].
Proof.
  destruct (tokenize_nil_iff_blank "  ") as [_ H].
  split; [reflexivity|exact (H eq_refl)].
Defined.

(** X4.  The text of every Operator token of a line is one of the six
    operators, [|], [<], [>], [>>], [&] and [;]. *)
Theorem tokenize_operator_texts (line : string) (t : Token) :
  In t (Tokenizer.tokenize line) -> type t = Op -> In (text t) op_texts.
Proof.
  intros Hin Hop.
  pose proof (tokenize_fuel_total line) as Ht.
  unfold Tokenizer.tokenize_fuel in Ht.
  apply (tokenize_loop_forall (fun t => type t = Op -> In (text t) op_texts))
    in Ht.
  - rewrite Forall_forall in Ht. exact (Ht t Hin Hop).
  - intros x Hx _; exact Hx.
  - intros x Hx; discriminate Hx.
  - constructor.
Qed.

Lemma tokenize_operator_texts_witness :
  In (op ">>") (Tokenizer.tokenize "a >>> b")
  /\ In (text (op ">>")) op_texts.
Proof.
  assert (H : In (op ">>") (Tokenizer.tokenize "a >>> b"))
    by (vm_compute; tauto).
  split; [exact H|].
  exact (tokenize_operator_texts "a >>> b" (op ">>") H eq_refl).
Defined.

(* ================================================================= *)
(** ** Quoting and escaping, in general *)

Section Quoting.

Import Tokenizer.

Lemma readWord_loop_end (fuel : nat) (out : string) :
  readWord_loop (S fuel) EmptyString out = Some (out, EmptyString).
Proof. reflexivity. Qed.

Lemma readWord_loop_break (fuel : nat) (c : ascii) (r out : string) :
  isspace c || isOperatorStart c = true ->
  readWord_loop (S fuel) (String c r) out = Some (out, String c r).
Proof. intros H. cbn [readWord_loop eof str_empty peek]. rewrite H. reflexivity. Qed.

Lemma readWord_loop_squote (fuel : nat) (r out : string) :
  readWord_loop (S fuel) (String squote r) out
  = readWord_loop fuel (closeQuote squote (snd (readSingle r out)))
                  (fst (readSingle r out)).
Proof.
  cbn [readWord_loop eof str_empty peek get snd].
  change (isspace squote || isOperatorStart squote) with false.
  change (Ascii.eqb squote squote) with true. cbv iota.
  destruct (readSingle r out); reflexivity.
Qed.

Lemma readWord_loop_dquote (fuel : nat) (r out : string) :
  readWord_loop (S fuel) (String dquote r) out
  = readWord_loop fuel (closeQuote dquote (snd (readDouble r out)))
                  (fst (readDouble r out)).
Proof.
  cbn [readWord_loop eof str_empty peek get snd].
  change (isspace dquote || isOperatorStart dquote) with false.
  change (Ascii.eqb dquote squote) with false.
  change (Ascii.eqb dquote dquote) with true. cbv iota.
  destruct (readDouble r out); reflexivity.
Qed.

Lemma readWord_loop_backslash (fuel : nat) (e : ascii) (r out : string) :
  readWord_loop (S fuel) (String backslash (String e r)) out
  = readWord_loop fuel r (push_back out e).
Proof. reflexivity. Qed.

Lemma plain_char_inv (c : ascii) :
  plain_char c = true ->
  isspace c || isOperatorStart c = false
  /\ Ascii.eqb c squote = false /\ Ascii.eqb c dquote = false
  /\ Ascii.eqb c backslash = false.
Proof.
  unfold plain_char. intros H. apply negb_true_iff in H.
  apply orb_false_elim in H as [H Hb].
  apply orb_false_elim in H as [H Hd].
  apply orb_false_elim in H as [H Hq].
  repeat split; assumption.
Qed.

Lemma readWord_loop_plain (fuel : nat) (c : ascii) (r out : string) :
  plain_char c = true ->
  readWord_loop (S fuel) (String c r) out
  = readWord_loop fuel r (push_back out c).
Proof.
  intros H. apply plain_char_inv in H as (H1 & H2 & H3 & H4).
  cbn [readWord_loop eof str_empty peek get snd fst].
  rewrite H1, H2, H3, H4. reflexivity.
Qed.

(** A single-quoted span is copied up to the next single quote. *)
Lemma readSingle_span (s : string) :
  forall out rest,
    all_chars (fun c => negb (Ascii.eqb c squote)) s = true ->
    readSingle (s ++ String squote rest) out
    = ((out ++ s)%string, String squote rest).
Proof.
  induction s as [|c s IH]; intros out rest H; simpl in *.
  - change (Ascii.eqb squote squote) with true. cbv iota.
    rewrite string_app_nil_r. reflexivity.
  - apply andb_prop in H as [Hc Hs]. apply negb_true_iff in Hc.
    rewrite Hc, IH by exact Hs. rewrite push_back_app. reflexivity.
Qed.

Lemma readSingle_open (s : string) :
  forall out,
    all_chars (fun c => negb (Ascii.eqb c squote)) s = true ->
    readSingle s out = ((out ++ s)%string, EmptyString).
Proof.
  induction s as [|c s IH]; intros out H; simpl in *.
  - rewrite string_app_nil_r. reflexivity.
  - apply andb_prop in H as [Hc Hs]. apply negb_true_iff in Hc.
    rewrite Hc, IH by exact Hs. rewrite push_back_app. reflexivity.
Qed.

(** A double-quoted span gives back the string that [escape_dq] encoded. *)
Lemma readDouble_escape (s : string) :
  forall out rest,
    readDouble (escape_dq s ++ String dquote rest) out
    = ((out ++ s)%string, String dquote rest).
Proof.
  induction s as [|c s IH]; intros out rest.
  - cbn [escape_dq append readDouble].
    change (Ascii.eqb dquote dquote) with true. cbv iota.
    rewrite string_app_nil_r. reflexivity.
  - cbn [escape_dq].
    destruct (Ascii.eqb c dquote) eqn:Ed; cbn [orb].
    + cbn [append readDouble].
      change (Ascii.eqb backslash dquote) with false.
      change (Ascii.eqb backslash backslash) with true. cbv iota.
      rewrite IH, push_back_app. reflexivity.
    + destruct (Ascii.eqb c backslash) eqn:Eb.
      * cbn [append readDouble].
        change (Ascii.eqb backslash dquote) with false.
        change (Ascii.eqb backslash backslash) with true. cbv iota.
        rewrite IH, push_back_app. reflexivity.
      * cbn [append readDouble]. rewrite Ed, Eb.
        rewrite IH, push_back_app. reflexivity.
Qed.

Lemma readWord_loop_escape_all (s : string) :
  forall fuel out,
    String.length s < fuel ->
    readWord_loop fuel (escape_all s) out = Some ((out ++ s)%string, EmptyString).
Proof.
  induction s as [|c s IH]; intros fuel out Hf.
  - destruct fuel; [lia|]. cbn [escape_all]. rewrite readWord_loop_end.
    rewrite string_app_nil_r. reflexivity.
  - destruct fuel; [lia|]. cbn [escape_all].
    rewrite readWord_loop_backslash, IH by (simpl in Hf; lia).
    rewrite push_back_app. reflexivity.
Qed.

Lemma escape_all_length (s : string) :
  String.length (escape_all s) = 2 * String.length s.
Proof. induction s as [|c s IH]; simpl; [|rewrite IH]; lia. Qed.

(** A line that starts on a word which runs to its end is that one
    token. *)
Lemma tokenize_one_word (c : ascii) (r t : string) :
  isspace c = false -> isOperatorStart c = false ->
  readWord (S (String.length (String c r))) (String c r) = Some (t, EmptyString) ->
  tokenize (String c r) = [word t].
Proof.
  intros Hs Ho Hr. unfold tokenize, tokenize_fuel.
  cbn [tokenize_loop skipWhitespace]. rewrite Hs.
  cbn [eof str_empty peek]. rewrite Ho, Hr. reflexivity.
Qed.

End Quoting.

(** X5.  Between single quotes every character is literal: a string
    without a single quote, put between single quotes, is one Word token
    with that string as its text, and so it is when the closing quote is
    missing. *)
Theorem tokenize_single_quoted (s : string) :
  all_chars (fun c => negb (Ascii.eqb c squote)) s = true ->
  Tokenizer.tokenize (String squote (s ++ String squote EmptyString)) = [word s]
  /\ Tokenizer.tokenize (String squote s) = [word s].
Proof.
  intros H. split.
  - apply tokenize_one_word; [reflexivity|reflexivity|].
    unfold Tokenizer.readWord. rewrite readWord_loop_squote.
    rewrite readSingle_span by exact H. cbn [fst snd].
    reflexivity.
  - apply tokenize_one_word; [reflexivity|reflexivity|].
    unfold Tokenizer.readWord. rewrite readWord_loop_squote.
    rewrite readSingle_open by exact H. cbn [fst snd].
    reflexivity.
Qed.

Lemma tokenize_single_quoted_witness :
  Tokenizer.tokenize (String squote ("a | b > c" ++ String squote EmptyString))
  = [word "a | b > c"]
  /\ Tokenizer.tokenize (String squote "a | b > c") = [word "a | b > c"].
Proof.
  exact (tokenize_single_quoted "a | b > c" eq_refl).
Defined.

(** X6.  Double quotes with backslash escapes are a faithful encoding:
    any string, with a backslash put before each of its double quotes and
    backslashes and then put between double quotes, is one Word token with
    that string as its text. *)
Theorem tokenize_double_quoted_roundtrip (s : string) :
  Tokenizer.tokenize (String dquote (escape_dq s ++ String dquote EmptyString))
  = [word s].
Proof.
  apply tokenize_one_word; [reflexivity|reflexivity|].
  unfold Tokenizer.readWord. rewrite readWord_loop_dquote.
  rewrite readDouble_escape. cbn [fst snd]. reflexivity.
Qed.

(** X7.  Outside quotes a backslash makes the next character literal: a
    string that is not empty, with a backslash put before each of its
    characters, is one Word token with that string as its text. *)
Theorem tokenize_backslash_roundtrip (s : string) :
  s <> EmptyString ->
  Tokenizer.tokenize (escape_all s) = [word s].
Proof.
  intros Hne. destruct s as [|c s]; [contradiction|].
  cbn [escape_all].
  apply tokenize_one_word; [reflexivity|reflexivity|].
  unfold Tokenizer.readWord.
  rewrite readWord_loop_backslash.
  rewrite readWord_loop_escape_all
    by (cbn [String.length]; rewrite escape_all_length; lia).
  reflexivity.
Qed.

Lemma tokenize_backslash_roundtrip_witness :
  Tokenizer.tokenize (escape_all "a b|c") = [word "a b|c"].
Proof.
  apply (tokenize_backslash_roundtrip "a b|c"). discriminate.
Defined.

Section PlainWords.

Import Tokenizer.

(** A run of plain characters is read as it is, up to the end of the line
    or to a character that ends a word. *)
Lemma readWord_loop_plain_word (w : string) :
  forall fuel out rest,
    all_chars plain_char w = true ->
    (rest = EmptyString
     \/ exists c r, rest = String c r /\ isspace c || isOperatorStart c = true) ->
    String.length w < fuel ->
    readWord_loop fuel (w ++ rest) out = Some ((out ++ w)%string, rest).
Proof.
  induction w as [|c w IH]; intros fuel out rest Hw Hrest Hf.
  - destruct fuel; [lia|]. cbn [append]. rewrite string_app_nil_r.
    destruct Hrest as [-> | (c & r & -> & Hc)].
    + apply readWord_loop_end.
    + apply readWord_loop_break; exact Hc.
  - destruct fuel; [lia|]. cbn [all_chars] in Hw.
    apply andb_prop in Hw as [Hc Hw]. cbn [append].
    rewrite readWord_loop_plain by exact Hc.
    rewrite IH; [|exact Hw|exact Hrest|simpl in Hf; lia].
    rewrite push_back_app. reflexivity.
Qed.

Lemma tokenize_loop_skip (fuel : nat) (c : ascii) (rest : string)
      (out : list Token) :
  isspace c = true ->
  tokenize_loop fuel (String c rest) out = tokenize_loop fuel rest out.
Proof.
  intros Hc. destruct fuel; [reflexivity|].
  cbn [tokenize_loop skipWhitespace]. rewrite Hc. reflexivity.
Qed.

Lemma concat_words_length (ws : list string) :
  forallb plain_word ws = true ->
  List.length ws <= String.length (String.concat " " ws).
Proof.
  induction ws as [|w ws IH]; intros H; [simpl; lia|].
  cbn [forallb] in H. apply andb_prop in H as [Hw Hws].
  unfold plain_word in Hw. apply andb_prop in Hw as [Hne _].
  destruct w as [|c w]; [discriminate|].
  specialize (IH Hws).
  destruct ws as [|w2 ws]; [simpl; lia|].
  change (String.concat " " (String c w :: w2 :: ws))
    with (String c w ++ " " ++ String.concat " " (w2 :: ws))%string.
  rewrite !string_app_length. cbn [String.length List.length] in *. lia.
Qed.

Lemma tokenize_loop_words (ws : list string) :
  forall fuel out,
    forallb plain_word ws = true ->
    List.length ws < fuel ->
    tokenize_loop fuel (String.concat " " ws) out = Some (out ++ map word ws).
Proof.
  induction ws as [|w ws IH]; intros fuel out H Hf.
  - destruct fuel; [lia|]. cbn. rewrite app_nil_r. reflexivity.
  - cbn [forallb] in H. apply andb_prop in H as [Hw Hws].
    unfold plain_word in Hw. apply andb_prop in Hw as [Hne Hpl].
    destruct w as [|c w]; [discriminate|].
    pose proof Hpl as Hpl0. cbn [all_chars] in Hpl0.
    apply andb_prop in Hpl0 as [Hc _].
    apply plain_char_inv in Hc as (Hso & _ & _ & _).
    apply orb_false_elim in Hso as [Hsp Hop].
    destruct fuel as [|fuel]; [lia|].
    destruct ws as [|w2 ws].
    + cbn [String.concat tokenize_loop skipWhitespace]. rewrite Hsp.
      cbn [eof str_empty peek]. rewrite Hop.
      unfold readWord.
      rewrite <- (string_app_nil_r (String c w)) at 2.
      rewrite readWord_loop_plain_word; [|exact Hpl|left; reflexivity|lia].
      destruct fuel; [simpl in Hf; lia|]. reflexivity.
    + change (String.concat " " (String c w :: w2 :: ws))
        with (String c w ++ String " " (String.concat " " (w2 :: ws)))%string.
      cbn [tokenize_loop append skipWhitespace]. rewrite Hsp.
      cbn [eof str_empty peek]. rewrite Hop.
      unfold readWord.
      change (String c (w ++ String " " (String.concat " " (w2 :: ws))))
        with (String c w ++ String " " (String.concat " " (w2 :: ws)))%string.
      rewrite readWord_loop_plain_word;
        [|exact Hpl|right; eexists; eexists; split; reflexivity
         |rewrite string_app_length; lia].
      rewrite tokenize_loop_skip by reflexivity.
      rewrite IH; [|exact Hws|simpl in *; lia].
      rewrite <- app_assoc. reflexivity.
Qed.

End PlainWords.

(** X8.  Words made of plain characters (no white space, operator
    character, quote or backslash) and joined by single spaces come back
    as they were: the tokens of the line are the words, in order, each a
    Word token. *)
Theorem tokenize_plain_words (ws : list string) :
  forallb plain_word ws = true ->
  Tokenizer.tokenize (String.concat " " ws) = map word ws.
Proof.
  intros H. unfold Tokenizer.tokenize, Tokenizer.tokenize_fuel.
  rewrite tokenize_loop_words; [reflexivity|exact H|].
  pose proof (concat_words_length ws H). lia.
Qed.

Lemma tokenize_plain_words_witness :
  Tokenizer.tokenize (String.concat " " ["grep"; "-v"; "foo.txt"])
  = map word ["grep"; "-v"; "foo.txt"].
Proof.
  exact (tokenize_plain_words ["grep"; "-v"; "foo.txt"] eq_refl).
Defined.

(* ================================================================= *)
(** ** The pipeline splitter, further *)

Section SplitterFacts.

Lemma split_loop_cons (t : Token) (rest : list Token) (st : list Words * Words) :
  split_loop (t :: rest) st = split_loop rest (split_step st t).
Proof. reflexivity. Qed.

Lemma is_pipe_false_inert (t : Token) :
  is_pipe t = false -> type t = Op -> text t <> "|".
Proof.
  intros Hp Ht E. unfold is_pipe in Hp. rewrite Ht, E in Hp. discriminate.
Qed.

Lemma word_texts_cons (t : Token) (rest : list Token) :
  word_texts (t :: rest)
  = match type t with
    | Word => text t :: word_texts rest
    | Op => word_texts rest
    end.
Proof. unfold word_texts; cbn [filter]; destruct (type t); reflexivity. Qed.

(** The words gathered by the loop, Stage after Stage, are the words it
    started with and the texts of the Word tokens. *)
Lemma split_loop_concat (tokens : list Token) :
  forall p c,
    List.concat (fst (split_loop tokens (p, c))) ++ snd (split_loop tokens (p, c))
    = List.concat p ++ c ++ word_texts tokens.
Proof.
  induction tokens as [|t rest IH]; intros p c.
  - cbn. rewrite app_nil_r. reflexivity.
  - rewrite split_loop_cons, word_texts_cons.
    destruct (is_pipe t) eqn:Hp.
    + rewrite split_step_pipe by exact Hp. rewrite IH.
      unfold is_pipe in Hp. destruct (type t); [discriminate|].
      rewrite concat_app. cbn [List.concat app]. rewrite app_nil_r, <- app_assoc.
      reflexivity.
    + destruct (type t) eqn:Ht.
      * rewrite split_step_word by exact Ht. rewrite IH, <- app_assoc.
        reflexivity.
      * rewrite split_step_inert;
          [apply IH|exact Ht|apply is_pipe_false_inert; assumption].
Qed.

(** The Stages already closed only ride along. *)
Lemma split_loop_shift_app (tokens : list Token) :
  forall p q c,
    split_loop tokens (p ++ q, c)
    = (p ++ fst (split_loop tokens (q, c)), snd (split_loop tokens (q, c))).
Proof.
  induction tokens as [|t rest IH]; intros p q c.
  - reflexivity.
  - rewrite !split_loop_cons.
    destruct (is_pipe t) eqn:Hp.
    + rewrite !split_step_pipe by exact Hp.
      rewrite <- app_assoc. apply IH.
    + destruct (type t) eqn:Ht.
      * rewrite !split_step_word by exact Ht. apply IH.
      * rewrite !split_step_inert;
          try exact Ht; try (apply is_pipe_false_inert; assumption).
        apply IH.
Qed.

Lemma split_loop_shift (tokens : list Token) (p : list Words) (c : Words) :
  split_loop tokens (p, c)
  = (p ++ fst (split_loop tokens ([], c)), snd (split_loop tokens ([], c))).
Proof.
  rewrite <- (app_nil_r p) at 1. apply split_loop_shift_app.
Qed.

Lemma splitIntoPipeline_loop (tokens : list Token) :
  splitIntoPipeline tokens
  = fst (split_loop tokens ([], []))
    ++ (if vec_empty (snd (split_loop tokens ([], []))) then []
        else [snd (split_loop tokens ([], []))]).
Proof.
  unfold splitIntoPipeline.
  destruct (split_loop tokens ([], [])) as [p c]. cbn [fst snd].
  destruct c; cbn [vec_empty negb]; [rewrite app_nil_r|]; reflexivity.
Qed.

End SplitterFacts.

Lemma split_concat_words (tokens : list Token) :
  List.concat (splitIntoPipeline tokens) = word_texts tokens.
Proof.
  rewrite splitIntoPipeline_loop, concat_app.
  etransitivity; [|exact (split_loop_concat tokens [] [])].
  assert (E : forall c : Words,
             List.concat (if vec_empty c then [] else [c]) = c).
  { intros [|x c]; cbn [vec_empty List.concat app]; rewrite ?app_nil_r;
      reflexivity. }
  f_equal. apply E.
Qed.

(** X9.  The splitter neither loses, adds nor reorders words: the Stages
    of the output, one after the other, hold the texts of the Word tokens
    in the order of the line, and nothing else. *)
Theorem split_keeps_words (tokens : list Token) :
  List.concat (splitIntoPipeline tokens) = word_texts tokens.
Proof. exact (split_concat_words tokens). Qed.

(** X10.  A [|] cuts the line in two independent parts: the pipeline of
    the whole is the Stages of what stands before the [|], the one before
    the [|] closed even if empty, followed by the pipeline of what stands
    after it. *)
Theorem split_at_pipe (before after : list Token) :
  splitIntoPipeline (before ++ op "|" :: after)
  = splitIntoPipeline (before ++ [op "|"]) ++ splitIntoPipeline after.
Proof.
  rewrite (splitIntoPipeline_loop (before ++ op "|" :: after)).
  rewrite (splitIntoPipeline_loop (before ++ [op "|"])).
  rewrite (splitIntoPipeline_loop after).
  rewrite !split_loop_app.
  destruct (split_loop before ([], [])) as [p c].
  rewrite !split_loop_cons.
  rewrite !(split_step_pipe p c (op "|")) by reflexivity.
  rewrite split_loop_shift.
  cbn [split_loop fold_left fst snd vec_empty].
  rewrite !app_nil_r, <- !app_assoc. reflexivity.
Qed.

Lemma split_length_formula (tokens : list Token) :
  List.length (splitIntoPipeline tokens)
  = List.length (filter is_pipe tokens)
    + (if vec_empty (word_texts (after_last_pipe tokens)) then 0 else 1).
Proof.
  rewrite splitIntoPipeline_loop, length_app.
  assert (Hl : List.length (fst (split_loop tokens ([], [])))
               = List.length (filter is_pipe tokens))
    by exact (split_loop_length tokens [] []).
  assert (Hc : snd (split_loop tokens ([], []))
               = word_texts (after_last_pipe tokens)).
  { etransitivity; [exact (split_loop_current tokens [] [])|].
    destruct (existsb is_pipe tokens); reflexivity. }
  rewrite Hc, Hl.
  destruct (word_texts (after_last_pipe tokens)); reflexivity.
Qed.

(** X11.  The number of Stages is the number of [|] tokens, and one more
    when a Word token follows the last of them (or when there is a Word
    token and no [|] at all). *)
Theorem split_stage_count (tokens : list Token) :
  List.length (splitIntoPipeline tokens)
  = List.length (filter is_pipe tokens)
    + (if vec_empty (word_texts (after_last_pipe tokens)) then 0 else 1).
Proof. exact (split_length_formula tokens). Qed.

Lemma split_pipe_free (tokens : list Token) :
  (existsb is_pipe tokens = false ->
   splitIntoPipeline tokens
   = if vec_empty (word_texts tokens) then [] else [word_texts tokens])
  /\ (splitIntoPipeline tokens = []
      <-> existsb is_pipe tokens = false /\ word_texts tokens = []).
Proof.
  assert (Hnone : existsb is_pipe tokens = false ->
                  splitIntoPipeline tokens
                  = if vec_empty (word_texts tokens) then []
                    else [word_texts tokens]).
  { intros Hp. rewrite splitIntoPipeline_loop.
    assert (Hf : filter is_pipe tokens = []).
    { clear -Hp. induction tokens as [|t rest IH]; [reflexivity|].
      cbn [existsb] in Hp. apply orb_false_elim in Hp as [Ht Hr].
      cbn [filter]. rewrite Ht. apply IH; exact Hr. }
    assert (Hl : fst (split_loop tokens ([], [])) = []).
    { apply length_zero_iff_nil.
      etransitivity; [exact (split_loop_length tokens [] [])|].
      rewrite Hf. reflexivity. }
    assert (Hc : snd (split_loop tokens ([], [])) = word_texts tokens).
    { etransitivity; [exact (split_loop_current tokens [] [])|].
      rewrite Hp, after_last_pipe_none by exact Hp. reflexivity. }
    rewrite Hl, Hc. reflexivity. }
  split; [exact Hnone|]. split.
  - intros He.
    pose proof (split_length_formula tokens) as Hn. rewrite He in Hn.
    cbn [List.length] in Hn.
    assert (Hp : existsb is_pipe tokens = false).
    { destruct (existsb is_pipe tokens) eqn:E; [|reflexivity].
      apply existsb_exists in E as (t & Hin & Ht).
      assert (Hin' : In t (filter is_pipe tokens))
        by (apply filter_In; split; assumption).
      destruct (filter is_pipe tokens); [contradiction|discriminate]. }
    split; [exact Hp|].
    rewrite (Hnone Hp) in He.
    destruct (word_texts tokens); [reflexivity|discriminate].
  - intros [Hp Hw]. rewrite (Hnone Hp), Hw. reflexivity.
Qed.

(** X12.  Without a [|] token the pipeline is the one Stage of all the
    words of the line, or no Stage when the line has no word; and the
    pipeline is empty only in that last case, a line with neither [|] nor
    word. *)
Theorem split_without_pipe (tokens : list Token) :
  (existsb is_pipe tokens = false ->
   splitIntoPipeline tokens
   = if vec_empty (word_texts tokens) then [] else [word_texts tokens])
  /\ (splitIntoPipeline tokens = []
      <-> existsb is_pipe tokens = false /\ word_texts tokens = []).
Proof. exact (split_pipe_free tokens). Qed.

Lemma split_without_pipe_witness :
  splitIntoPipeline [word "ls"; op ";"; word "-l"] = [["ls"; "-l"]]
  /\ splitIntoPipeline [op ";"; op "&"] = [].
Proof.
  destruct (split_without_pipe [word "ls"; op ";"; word "-l"]) as [H1 _].
  destruct (split_without_pipe [op ";"; op "&"]) as [_ [_ H2]].
  split; [exact (H1 eq_refl)|exact (H2 (conj eq_refl eq_refl))].
Defined.

(* ================================================================= *)
(** ** The redirection extractor, further *)

Section ExtractorFacts.

(** A statement on the items of every Stage follows from its two cases,
    the empty Stage and a Stage after one more string. *)
Lemma items_pair_ind (P : Words -> Prop) :
  P [] ->
  (forall t, P [t]) ->
  (forall t f rest, is_redir_op t = true -> P rest -> P (t :: f :: rest)) ->
  (forall t rest, is_redir_op t = false -> P rest -> P (t :: rest)) ->
  forall ws, P ws.
Proof.
  intros Hnil Hone Hredir Harg.
  assert (H : forall ws, P ws /\ forall t, P (t :: ws)).
  { induction ws as [|a ws [IH1 IH2]].
    - split; [exact Hnil|exact Hone].
    - split; [apply IH2|].
      intros t. destruct (is_redir_op t) eqn:E.
      + apply Hredir; assumption.
      + apply Harg; [exact E|apply IH2]. }
  intros ws; apply H.
Qed.

Lemma args_of_items_plain (ws : Words) :
  forallb plain (args_of (items ws)) = true.
Proof.
  induction ws as [| t | t f rest Ht IH | t rest Ht IH] using items_pair_ind.
  - reflexivity.
  - rewrite items_cons. destruct (is_redir_op t) eqn:E; [reflexivity|].
    cbn. unfold plain. rewrite E. reflexivity.
  - rewrite items_cons, Ht.
    destruct (t =? "<")%string; exact IH.
  - rewrite items_cons, Ht. cbn [args_of flat_map app forallb].
    unfold plain at 1. rewrite Ht. exact IH.
Qed.

Lemma args_of_items_incl (ws : Words) :
  forall s, In s (args_of (items ws)) -> In s ws.
Proof.
  induction ws as [| t | t f rest Ht IH | t rest Ht IH] using items_pair_ind;
    intros s Hs.
  - contradiction.
  - rewrite items_cons in Hs. destruct (is_redir_op t); [contradiction|].
    exact Hs.
  - rewrite items_cons, Ht in Hs.
    right; right. apply IH. destruct (t =? "<")%string; exact Hs.
  - rewrite items_cons, Ht in Hs. cbn [args_of flat_map app] in Hs.
    destruct Hs as [<-|Hs]; [left; reflexivity|right; apply IH; exact Hs].
Qed.

Lemma inputs_of_items_none (ws : Words) :
  ~ In "<" ws -> inputs_of (items ws) = [].
Proof.
  induction ws as [| t | t f rest Ht IH | t rest Ht IH] using items_pair_ind;
    intros Hn.
  - reflexivity.
  - rewrite items_cons. destruct (is_redir_op t); reflexivity.
  - rewrite items_cons, Ht.
    destruct (t =? "<")%string eqn:E.
    + apply String.eqb_eq in E. exfalso. apply Hn. left. exact E.
    + cbn [inputs_of flat_map app]. apply IH.
      intros H. apply Hn. right; right. exact H.
  - rewrite items_cons, Ht. cbn [inputs_of flat_map app]. apply IH.
    intros H. apply Hn. right. exact H.
Qed.

Lemma outputs_of_items_none (ws : Words) :
  ~ In ">" ws -> ~ In ">>" ws -> outputs_of (items ws) = [].
Proof.
  induction ws as [| t | t f rest Ht IH | t rest Ht IH] using items_pair_ind;
    intros Hn Hnn.
  - reflexivity.
  - rewrite items_cons. destruct (is_redir_op t); reflexivity.
  - rewrite items_cons, Ht.
    destruct (t =? "<")%string eqn:E.
    + cbn [outputs_of flat_map app]. apply IH.
      * intros H. apply Hn. right; right. exact H.
      * intros H. apply Hnn. right; right. exact H.
    + exfalso. unfold is_redir_op in Ht. rewrite E in Ht. cbn [orb] in Ht.
      apply orb_prop in Ht as [Ht|Ht]; apply String.eqb_eq in Ht.
      * apply Hn. left. exact Ht.
      * apply Hnn. left. exact Ht.
  - rewrite items_cons, Ht. cbn [outputs_of flat_map app]. apply IH.
    + intros H. apply Hn. right. exact H.
    + intros H. apply Hnn. right. exact H.
Qed.

Lemma extract_plain (args : Words) :
  forallb plain args = true ->
  extractRedirections args = (args, no_redirection).
Proof.
  intros Ha. rewrite extractRedirections_overlay, (items_plain args Ha).
  rewrite args_of_plain, overlay_plain. reflexivity.
Qed.

End ExtractorFacts.

(** X13.  The argument list that the extractor returns holds strings of
    the Stage only, and none of them is [<], [>] or [>>]. *)
Theorem extract_argv_has_no_operator (ws : Words) :
  forallb plain (fst (extractRedirections ws)) = true
  /\ (forall s, In s (fst (extractRedirections ws)) -> In s ws).
Proof.
  rewrite extractRedirections_overlay. cbn [fst].
  split; [apply args_of_items_plain|apply args_of_items_incl].
Qed.

Lemma extract_argv_has_no_operator_witness :
  In "-n" (fst (extractRedirections ["cat"; "<"; "in"; "-n"]))
  /\ In "-n" ["cat"; "<"; "in"; "-n"].
Proof.
  destruct (extract_argv_has_no_operator ["cat"; "<"; "in"; "-n"]) as [_ H].
  assert (Hin : In "-n" (fst (extractRedirections ["cat"; "<"; "in"; "-n"])))
    by (vm_compute; tauto).
  split; [exact Hin|exact (H "-n" Hin)].
Defined.

(** X14.  Extraction is idempotent: the argument list it returns is
    returned unchanged, with no redirection, when it is extracted
    again. *)
Theorem extract_idempotent (ws : Words) :
  extractRedirections (fst (extractRedirections ws))
  = (fst (extractRedirections ws), no_redirection).
Proof.
  apply extract_plain. rewrite extractRedirections_overlay. cbn [fst].
  apply args_of_items_plain.
Qed.

(** X15.  The extractor records no redirection that the Stage does not
    ask for: without the string [<] the input file stays empty, and
    without the strings [>] and [>>] the output file stays empty and the
    append flag unset. *)
Theorem extract_invents_nothing (ws : Words) :
  (~ In "<" ws -> stdin_file (snd (extractRedirections ws)) = EmptyString)
  /\ (~ In ">" ws -> ~ In ">>" ws ->
      stdout_file (snd (extractRedirections ws)) = EmptyString
      /\ stdout_append (snd (extractRedirections ws)) = false).
Proof.
  rewrite extractRedirections_overlay, overlay_last. cbn [snd].
  split.
  - intros H. cbn [stdin_file]. rewrite inputs_of_items_none by exact H.
    reflexivity.
  - intros H1 H2. cbn [stdout_file stdout_append].
    rewrite outputs_of_items_none by assumption. split; reflexivity.
Qed.

Lemma extract_invents_nothing_witness :
  stdin_file (snd (extractRedirections ["sort"; ">"; "out"])) = EmptyString
  /\ stdout_file (snd (extractRedirections ["cat"; "<"; "in"])) = EmptyString
  /\ stdout_append (snd (extractRedirections ["cat"; "<"; "in"])) = false.
Proof.
  destruct (extract_invents_nothing ["sort"; ">"; "out"]) as [H1 _].
  destruct (extract_invents_nothing ["cat"; "<"; "in"]) as [_ H2].
  split.
  - apply H1. intros [H|[H|[H|[]]]]; discriminate H.
  - apply H2.
    + intros [H|[H|[H|[]]]]; discriminate H.
    + intros [H|[H|[H|[]]]]; discriminate H.
Defined.

Section UnquotedLines.

Import Tokenizer.

Lemma bare_char_inv (c : ascii) :
  bare_char c = true ->
  Ascii.eqb c squote = false /\ Ascii.eqb c dquote = false
  /\ Ascii.eqb c backslash = false.
Proof.
  unfold bare_char. intros H. apply negb_true_iff in H.
  apply orb_false_elim in H as [H Hb].
  apply orb_false_elim in H as [Hq Hd]. repeat split; assumption.
Qed.

(** Without quote and backslash a word is made of the characters read,
    none of which starts an operator. *)
Lemma readWord_loop_bare (fuel : nat) :
  forall rest out t r,
    all_chars bare_char rest = true ->
    readWord_loop fuel rest out = Some (t, r) ->
    (exists w, t = (out ++ w)%string /\ all_chars not_operator_char w = true)
    /\ all_chars bare_char r = true.
Proof.
  induction fuel as [|fuel IH]; intros rest out t r Hb H; [discriminate|].
  destruct rest as [|c rest].
  - rewrite readWord_loop_end in H. injection H as <- <-.
    split; [|reflexivity]. exists EmptyString.
    rewrite string_app_nil_r. split; reflexivity.
  - destruct (isspace c || isOperatorStart c) eqn:Eso.
    + rewrite readWord_loop_break in H by exact Eso. injection H as <- <-.
      split; [|exact Hb]. exists EmptyString.
      rewrite string_app_nil_r. split; reflexivity.
    + cbn [all_chars] in Hb. apply andb_prop in Hb as [Hc Hb].
      apply bare_char_inv in Hc as (Hq & Hd & Hs).
      cbn [readWord_loop eof str_empty peek get snd fst] in H.
      rewrite Eso, Hq, Hd, Hs in H.
      apply IH in H as [(w & -> & Hw) Hr]; [|exact Hb].
      split; [|exact Hr]. exists (String c w).
      rewrite push_back_app. split; [reflexivity|].
      cbn [all_chars]. rewrite Hw, andb_true_r.
      apply orb_false_elim in Eso as [_ Ho].
      unfold not_operator_char. rewrite Ho. reflexivity.
Qed.

Lemma skipWhitespace_all_chars (p : ascii -> bool) (s : string) :
  all_chars p s = true -> all_chars p (skipWhitespace s) = true.
Proof.
  induction s as [|c s IH]; intros H; [reflexivity|].
  cbn [skipWhitespace]. destruct (isspace c); [|exact H].
  cbn [all_chars] in H. apply andb_prop in H as [_ H]. apply IH; exact H.
Qed.

Lemma readOperator_all_chars (p : ascii -> bool) (c : ascii) (r : string) :
  all_chars p (String c r) = true ->
  all_chars p (snd (readOperator (String c r))) = true.
Proof.
  cbn [all_chars]. intros H. apply andb_prop in H as [_ H].
  unfold readOperator. cbn [get].
  destruct (Ascii.eqb c ">"); [|exact H].
  destruct r as [|d r]; [exact H|].
  cbn [eof str_empty negb andb peek get snd].
  destruct (Ascii.eqb d ">"); [|exact H].
  cbn [all_chars] in H. apply andb_prop in H as [_ H]. exact H.
Qed.

Lemma tokenize_loop_bare (fuel : nat) :
  forall rest out toks,
    all_chars bare_char rest = true ->
    tokenize_loop fuel rest out = Some toks ->
    Forall (fun t => all_chars not_operator_char (text t) = true)
           (filter (fun t => TokenType_eqb (type t) Word) out) ->
    Forall (fun t => all_chars not_operator_char (text t) = true)
           (filter (fun t => TokenType_eqb (type t) Word) toks).
Proof.
  induction fuel as [|fuel IH]; intros rest out toks Hb H Hout; [discriminate|].
  cbn [tokenize_loop] in H.
  pose proof (skipWhitespace_all_chars bare_char rest Hb) as Hb'.
  destruct (skipWhitespace rest) as [|c r] eqn:Es; cbn [eof str_empty peek] in H.
  { injection H as <-; exact Hout. }
  destruct (isOperatorStart c) eqn:Ec.
  - pose proof (readOperator_all_chars bare_char c r Hb') as Hr.
    destruct (readOperator (String c r)) as [t r']. cbn [snd] in Hr.
    apply (IH _ _ _ Hr H).
    rewrite filter_app. cbn [filter type TokenType_eqb]. rewrite app_nil_r.
    exact Hout.
  - destruct (readWord _ _) as [[t r']|] eqn:Er; [|discriminate].
    unfold readWord in Er.
    apply readWord_loop_bare in Er as [(w & -> & Hw) Hr]; [|exact Hb'].
    apply (IH _ _ _ Hr H).
    rewrite filter_app. cbn [filter type TokenType_eqb].
    apply Forall_app; split; [exact Hout|].
    constructor; [exact Hw|constructor].
Qed.

Lemma not_operator_plain (w : string) :
  all_chars not_operator_char w = true -> plain w = true.
Proof.
  intros H. unfold plain, is_redir_op.
  destruct (String.eqb_spec w "<") as [->|_]; [discriminate H|].
  destruct (String.eqb_spec w ">") as [->|_]; [discriminate H|].
  destruct (String.eqb_spec w ">>") as [->|_]; [discriminate H|].
  reflexivity.
Qed.

Lemma stage_words (tokens : list Token) (st : Words) (s : string) :
  In st (splitIntoPipeline tokens) -> In s st -> In s (word_texts tokens).
Proof.
  intros Hst Hs. rewrite <- split_concat_words.
  apply in_concat. exists st. split; assumption.
Qed.

End UnquotedLines.

(** X16.  When no Word token of a line has the text [<], [>] or [>>],
    every Stage of its pipeline is its own argument list and carries no
    redirection.  This is so for every line without quote and backslash:
    a redirection written in the plain way never reaches the executor. *)
Theorem unquoted_line_never_redirects :
  (forall tokens st,
      forallb plain (word_texts tokens) = true ->
      In st (splitIntoPipeline tokens) ->
      extractRedirections st = (st, no_redirection))
  /\ (forall line st,
         all_chars bare_char line = true ->
         In st (splitIntoPipeline (Tokenizer.tokenize line)) ->
         extractRedirections st = (st, no_redirection)).
Proof.
  assert (Hgen : forall tokens st,
             forallb plain (word_texts tokens) = true ->
             In st (splitIntoPipeline tokens) ->
             extractRedirections st = (st, no_redirection)).
  { intros tokens st Hp Hst. apply extract_plain.
    apply forallb_forall. intros s Hs.
    rewrite forallb_forall in Hp. apply Hp.
    apply (stage_words tokens st s Hst Hs). }
  split; [exact Hgen|].
  intros line st Hb Hst. apply (Hgen (Tokenizer.tokenize line)); [|exact Hst].
  pose proof (tokenize_fuel_total line) as Ht.
  unfold Tokenizer.tokenize_fuel in Ht.
  apply tokenize_loop_bare in Ht; [|exact Hb|constructor].
  rewrite Forall_forall in Ht.
  apply forallb_forall. intros s Hs. unfold word_texts in Hs.
  apply in_map_iff in Hs as (t & <- & Hin).
  apply not_operator_plain. apply Ht. exact Hin.
Qed.

Lemma unquoted_line_never_redirects_witness :
  In ["sort"; "out.txt"] (splitIntoPipeline (Tokenizer.tokenize "ls | sort > out.txt"))
  /\ extractRedirections ["sort"; "out.txt"]
     = (["sort"; "out.txt"], no_redirection).
Proof.
  destruct unquoted_line_never_redirects as [_ H].
  assert (Hin : In ["sort"; "out.txt"]
                   (splitIntoPipeline (Tokenizer.tokenize "ls | sort > out.txt")))
    by (vm_compute; tauto).
  split; [exact Hin|].
  exact (H "ls | sort > out.txt" ["sort"; "out.txt"] eq_refl Hin).
Defined.

(* ================================================================= *)
(** ** The builtins, further *)

Section BuiltinFacts.

Variable os : OS.

Lemma echo_loop_cout (args : Words) :
  forall w,
    cout (Builtins.echo_loop os args w)
    = (cout w ++ String.concat " " (map (expand os) args))%string.
Proof.
  induction args as [|a rest IH]; intros w.
  - cbn. rewrite string_app_nil_r. reflexivity.
  - cbn [Builtins.echo_loop]. rewrite IH.
    assert (E : forall w0,
               (if negb (str_empty a) && Ascii.eqb (char_at a 0) "$"
                then write_cout
                       (getenv_or_empty os (substring 1 (String.length a - 1) a)) w0
                else write_cout a w0)
               = write_cout (expand os a) w0).
    { intros w0. unfold expand.
      destruct (negb (str_empty a) && Ascii.eqb (char_at a 0) "$"); reflexivity. }
    rewrite E.
    destruct rest as [|b rest]; cbn [vec_empty negb map String.concat].
    + cbn [write_cout cout]. rewrite string_app_nil_r. reflexivity.
    + cbn [write_cout cout]. rewrite !string_app_assoc. reflexivity.
Qed.

Lemma echo_loop_frame (args : Words) :
  forall w,
    same_process_state w (Builtins.echo_loop os args w)
    /\ cwd (Builtins.echo_loop os args w) = cwd w
    /\ cerr (Builtins.echo_loop os args w) = cerr w.
Proof.
  induction args as [|a rest IH]; intros w.
  - repeat split.
  - cbn [Builtins.echo_loop].
    destruct (IH (if negb (vec_empty rest)
                  then write_cout " "
                         (if negb (str_empty a) && Ascii.eqb (char_at a 0) "$"
                          then write_cout
                                 (getenv_or_empty os
                                    (substring 1 (String.length a - 1) a)) w
                          else write_cout a w)
                  else if negb (str_empty a) && Ascii.eqb (char_at a 0) "$"
                       then write_cout
                              (getenv_or_empty os
                                 (substring 1 (String.length a - 1) a)) w
                       else write_cout a w))
      as ((H1 & H2 & H3 & H4 & H5) & H6 & H7).
    unfold same_process_state.
    rewrite H1, H2, H3, H4, H5, H6, H7.
    destruct (negb (vec_empty rest));
      destruct (negb (str_empty a) && Ascii.eqb (char_at a 0) "$");
      repeat split.
Qed.

End BuiltinFacts.

(** X18.  No builtin creates a pipe or a process or waits for one: the
    open descriptors, the counts of [pipe] and [fork] calls and the lists
    of children and of collected pids are the same after
    [tryRunInParent] as before, whatever the arguments. *)
Theorem builtins_never_fork (os : OS) (words : Words) (w : World)
        (handled : bool) (w' : World) :
  Builtins.tryRunInParent os words w = Ok (handled, w') ->
  same_process_state w w'.
Proof.
  destruct words as [|cmd args];
    [intros H; injection H as <- <-; repeat split|].
  unfold Builtins.tryRunInParent.
  destruct (cmd =? "cd")%string.
  { destruct args as [|dir more].
    - destruct (str_empty (getenv_or_empty os "HOME"));
        [intros H; injection H as <- <-; repeat split|].
      destruct (set_current_path os (cwd w) (getenv_or_empty os "HOME"));
        intros H; injection H as <- <-; repeat split.
    - destruct (set_current_path os (cwd w) dir);
        intros H; injection H as <- <-; repeat split. }
  destruct (cmd =? "exit")%string;
    [intros H; injection H as <- <-; repeat split|].
  destruct (cmd =? "pwd")%string.
  { destruct (current_path_error os (cwd w)); [discriminate|].
    intros H; injection H as <- <-; repeat split. }
  destruct (cmd =? "echo")%string;
    [|intros H; injection H as <- <-; repeat split].
  intros H; injection H as <- <-.
  destruct (echo_loop_frame os args w) as [H _].
  unfold same_process_state in *. cbn [write_cout open_fds pipe_calls fork_calls
                                       spawned reaped]. exact H.
Qed.

Lemma builtins_never_fork_witness :
  Builtins.tryRunInParent os_sample ["echo"; "$HOME"] world0
  = Ok (true, write_cout ("/home/user" ++ nl) world0)
  /\ same_process_state world0 (write_cout ("/home/user" ++ nl) world0).
Proof.
  assert (H : Builtins.tryRunInParent os_sample ["echo"; "$HOME"] world0
              = Ok (true, write_cout ("/home/user" ++ nl) world0))
    by (vm_compute; reflexivity).
  split; [exact H|].
  exact (builtins_never_fork os_sample ["echo"; "$HOME"] world0 true _ H).
Defined.

(** X19.  [echo] writes its arguments to standard output, each one
    replaced by the value of the variable it names when it starts with
    [$] (the empty string when the variable is unset), with one space
    between two arguments and a newline at the end; it changes nothing
    else. *)
Theorem echo_output (os : OS) (args : Words) (w : World) :
  Builtins.tryRunInParent os ("echo" :: args) w
  = Ok (true,
        write_cout (String.concat " " (map (expand os) args) ++ nl) w).
Proof.
  unfold Builtins.tryRunInParent. cbn [String.eqb Ascii.eqb Bool.eqb].
  do 2 f_equal.
  pose proof (echo_loop_cout os args w) as Hc.
  destruct (echo_loop_frame os args w) as ((H1 & H2 & H3 & H4 & H5) & H6 & H7).
  destruct (Builtins.echo_loop os args w) as [d o e f pc fc sp rp].
  cbn [cwd cout cerr open_fds pipe_calls fork_calls spawned reaped] in *.
  subst. unfold write_cout.
  cbn [cwd cout cerr open_fds pipe_calls fork_calls spawned reaped].
  rewrite string_app_assoc. reflexivity.
Qed.

(** X30.  [pwd] is the one builtin that can be left by an exception:
    [tryRunInParent] returns for every other command, and for [pwd] it
    returns exactly when [fs::current_path()] does not throw.  When it
    throws, nothing is printed, nothing catches the exception, and the
    iteration of the read loop ends the interpreter: the lines that
    follow are not read. *)
Theorem pwd_exception_ends_interpreter :
  (forall os words w what,
      Builtins.tryRunInParent os words w = Uncaught what ->
      hd EmptyString words = "pwd"
      /\ current_path_error os (cwd w) = Some what)
  /\ (forall os args w what,
         current_path_error os (cwd w) = Some what ->
         Builtins.tryRunInParent os ("pwd" :: args) w = Uncaught what)
  /\ (forall os args w,
         current_path_error os (cwd w) = None ->
         Builtins.tryRunInParent os ("pwd" :: args) w
         = Ok (true, write_cout (cwd w ++ nl) w))
  /\ (forall os line w st args r what,
         splitIntoPipeline (Tokenizer.tokenize line) = [st] ->
         extractRedirections st = ("pwd" :: args, r) ->
         current_path_error os (cwd w) = Some what ->
         mainBody os line w = (Terminate, w))
  /\ (forall os line rest w st args r what,
         splitIntoPipeline (Tokenizer.tokenize line) = [st] ->
         extractRedirections st = ("pwd" :: args, r) ->
         current_path_error os (cwd w) = Some what ->
         mainLoop os (line :: rest) w = printPrompt w).
Proof.
  assert (Hthrow : forall os args w what,
             current_path_error os (cwd w) = Some what ->
             Builtins.tryRunInParent os ("pwd" :: args) w = Uncaught what).
  { intros os args w what H. unfold Builtins.tryRunInParent.
    cbn [String.eqb Ascii.eqb Bool.eqb]. rewrite H. reflexivity. }
  assert (Hbody : forall os line w st args r what,
             splitIntoPipeline (Tokenizer.tokenize line) = [st] ->
             extractRedirections st = ("pwd" :: args, r) ->
             current_path_error os (cwd w) = Some what ->
             mainBody os line w = (Terminate, w)).
  { intros os line w st args r what Hs He Hp.
    rewrite (mainBody_single_stage os line w st ("pwd" :: args) r Hs He eq_refl).
    - rewrite (Hthrow os args w what Hp). reflexivity.
    - destruct (is_bare_exit (Tokenizer.tokenize line)) eqn:E; [|reflexivity].
      apply is_bare_exit_iff in E. rewrite E in Hs.
      injection Hs as <-. discriminate He. }
  split; [exact tryRunInParent_uncaught|]. split; [exact Hthrow|].
  split; [|split; [exact Hbody|]].
  - intros os args w H. unfold Builtins.tryRunInParent.
    cbn [String.eqb Ascii.eqb Bool.eqb]. rewrite H. reflexivity.
  - intros os line rest w st args r what Hs He Hp. cbn [mainLoop].
    rewrite (Hbody os line (printPrompt w) st args r what Hs He Hp).
    reflexivity.
Qed.

Lemma pwd_exception_ends_interpreter_witness :
  Builtins.tryRunInParent os_cwd_lost ["pwd"] world0
  = Uncaught "filesystem error: cannot get current path"
  /\ hd EmptyString ["pwd"] = "pwd"
  /\ Builtins.tryRunInParent os_sample ["pwd"] world0
     = Ok (true, write_cout (cwd world0 ++ nl) world0)
  /\ mainBody os_cwd_lost "pwd" world0 = (Terminate, world0)
  /\ mainLoop os_cwd_lost ["pwd"; "ls"] world0 = printPrompt world0.
Proof.
  destruct pwd_exception_ends_interpreter as (Honly & Hthrow & Hok & Hbody & Hloop).
  assert (H : Builtins.tryRunInParent os_cwd_lost ["pwd"] world0
              = Uncaught "filesystem error: cannot get current path")
    by exact (Hthrow os_cwd_lost [] world0 _ eq_refl).
  split; [exact H|].
  split; [exact (proj1 (Honly os_cwd_lost ["pwd"] world0 _ H))|].
  split; [exact (Hok os_sample [] world0 eq_refl)|].
  split.
  - exact (Hbody os_cwd_lost "pwd" world0 ["pwd"] [] no_redirection
             "filesystem error: cannot get current path"
             eq_refl eq_refl eq_refl).
  - exact (Hloop os_cwd_lost "pwd" ["ls"] world0 ["pwd"] [] no_redirection
             "filesystem error: cannot get current path"
             eq_refl eq_refl eq_refl).
Defined.

(* ================================================================= *)
(** ** The executor, further *)

Section ExecutorFrame.

Import Executor.

Variable os : OS.

Lemma closeAll_frame (fds : list Z) :
  forall w,
    same_shell_state w (closeAll fds w)
    /\ cerr (closeAll fds w) = cerr w
    /\ reaped (closeAll fds w) = reaped w
    /\ fork_calls (closeAll fds w) = fork_calls w.
Proof.
  induction fds as [|fd rest IH]; intros w; [repeat split|].
  cbn [closeAll]. destruct (IH (sys_close fd w)) as ((H1 & H2) & H3 & H4 & H5).
  unfold same_shell_state. rewrite H1, H2, H3, H4, H5. repeat split.
Qed.

Lemma closeAll_open_fds_iff (fds : list Z) :
  forall w fd,
    In fd (open_fds (closeAll fds w)) <-> In fd (open_fds w) /\ ~ In fd fds.
Proof.
  induction fds as [|f rest IH]; intros w fd; cbn [closeAll].
  - simpl; tauto.
  - rewrite IH. cbn [sys_close open_fds]. split.
    + intros [H Hn]. apply in_remove in H as [H Hne].
      split; [exact H|]. intros [E|E]; [congruence|contradiction].
    + intros [H Hn]. split.
      * apply in_in_remove; [|exact H]. intros E. apply Hn. left. congruence.
      * intros E. apply Hn. right. exact E.
Qed.

Lemma createPipes_frame (k : nat) :
  forall fds w,
    same_shell_state w (snd (createPipes os k fds w))
    /\ spawned (snd (createPipes os k fds w)) = spawned w
    /\ fork_calls (snd (createPipes os k fds w)) = fork_calls w
    /\ reaped (snd (createPipes os k fds w)) = reaped w.
Proof.
  induction k as [|k IH]; intros fds w; [repeat split|].
  cbn [createPipes].
  destruct (sys_pipe os (pipe_calls w)) as [[r wr]|]; [|repeat split].
  destruct (IH (fds ++ [r; wr]) (opened_pipe r wr w)) as ((H1 & H2) & H3 & H4 & H5).
  unfold same_shell_state. rewrite H1, H2, H3, H4, H5. repeat split.
Qed.

(** When the first loop ends normally every [pipe] call has succeeded,
    and the descriptors it returned are the ones added to [pipefds] and
    to the open descriptors. *)
Lemma createPipes_some (k : nat) :
  forall fds w fds' w',
    createPipes os k fds w = (Some fds', w') ->
    exists new,
      fds' = fds ++ new
      /\ List.length new = 2 * k
      /\ open_fds w' = open_fds w ++ new
      /\ pipe_calls w' = pipe_calls w + k
      /\ cerr w' = cerr w
      /\ forall j, j < k -> sys_pipe os (pipe_calls w + j) <> None.
Proof.
  induction k as [|k IH]; intros fds w fds' w' H; cbn [createPipes] in H.
  - injection H as <- <-. exists []. rewrite !app_nil_r, Nat.add_0_r.
    repeat split. intros j Hj; lia.
  - destruct (sys_pipe os (pipe_calls w)) as [[r wr]|] eqn:Ep; [|discriminate].
    apply IH in H as (new & -> & Hlen & Hopen & Hcalls & Herr & Hall).
    exists ([r; wr] ++ new). rewrite <- app_assoc.
    split; [reflexivity|]. split; [cbn [List.length app]; lia|].
    split; [rewrite Hopen; cbn [opened_pipe open_fds];
            rewrite <- app_assoc; reflexivity|].
    split; [rewrite Hcalls; cbn [opened_pipe pipe_calls]; lia|].
    split; [exact Herr|].
    intros j Hj. destruct j as [|j].
    + rewrite Nat.add_0_r, Ep. discriminate.
    + replace (pipe_calls w + S j) with (S (pipe_calls w) + j) by lia.
      apply (Hall j). lia.
Qed.

Lemma spawnStages_frame (n : nat) (fds : list Z) (stages : list Words) :
  forall idx pids w,
    same_shell_state w (snd (spawnStages os n fds stages idx pids w))
    /\ reaped (snd (spawnStages os n fds stages idx pids w)) = reaped w.
Proof.
  induction stages as [|st rest IH]; intros idx pids w; [repeat split|].
  cbn [spawnStages]. destruct (extractRedirections st) as [argv r].
  destruct (vec_empty argv); [apply IH|].
  destruct (sys_fork os (fork_calls w)) as [p|].
  - destruct (IH (S idx) (pids ++ [p])
                (forked (child os p idx n fds argv r) w)) as ((H1 & H2) & H3).
    unfold same_shell_state. rewrite H1, H2, H3. repeat split.
  - cbn [snd].
    destruct (closeAll_frame fds (write_diag (Perror "fork") (failed_fork w)))
      as ((H1 & H2) & _ & H3 & _).
    unfold same_shell_state. rewrite H1, H2, H3. repeat split.
Qed.

Lemma child_pid_stage (p : Z) (idx n : nat) (fds : list Z) (argv : Words)
      (r : RedirectionInfo) :
  pid (child os p idx n fds argv r) = p
  /\ stage (child os p idx n fds argv r) = idx.
Proof. unfold child. destruct (childBody os idx n fds argv r). split; reflexivity. Qed.

(** When the second loop ends normally, the processes it has created are
    those of the Stages that hold a command, one each and in order. *)
Lemma spawnStages_some (n : nat) (fds : list Z) (stages : list Words) :
  forall idx pids w pids' w',
    spawnStages os n fds stages idx pids w = (Some pids', w') ->
    exists procs,
      spawned w' = spawned w ++ procs
      /\ pids' = pids ++ map pid procs
      /\ map stage procs = command_positions stages idx
      /\ open_fds w' = open_fds w
      /\ fork_calls w' = fork_calls w + List.length procs.
Proof.
  induction stages as [|st rest IH]; intros idx pids w pids' w' H;
    cbn [spawnStages] in H.
  - injection H as <- <-. exists []. rewrite !app_nil_r.
    repeat split. simpl; lia.
  - cbn [command_positions]. unfold has_command.
    destruct (extractRedirections st) as [argv r]. cbn [fst].
    destruct (vec_empty argv); cbn [negb]; [apply IH; exact H|].
    destruct (sys_fork os (fork_calls w)) as [p|]; [|discriminate].
    apply IH in H as (procs & Hs & Hp & Hst & Ho & Hf).
    destruct (child_pid_stage p idx n fds argv r) as [Epid Estage].
    exists (child os p idx n fds argv r :: procs).
    cbn [forked spawned open_fds fork_calls] in *.
    rewrite Hs, Hp, Ho, Hf, <- !app_assoc. cbn [map app List.length].
    rewrite Epid, Estage, Hst. repeat split. lia.
Qed.

Lemma waitAll_frame (pids : list Z) :
  forall status w,
    same_shell_state w (snd (waitAll os pids status w))
    /\ open_fds (snd (waitAll os pids status w)) = open_fds w.
Proof.
  induction pids as [|p rest IH]; intros status w; [repeat split|].
  cbn [waitAll]. destruct (sys_waitpid os p) as [st|].
  - destruct (IH st (waited p w)) as ((H1 & H2) & H3).
    unfold same_shell_state. rewrite H1, H2, H3. repeat split.
  - destruct (IH status (write_diag (Perror "waitpid") w)) as ((H1 & H2) & H3).
    unfold same_shell_state. rewrite H1, H2, H3. repeat split.
Qed.

End ExecutorFrame.

(** X21.  When one of the [pipe] calls of a run fails, [runPipeline]
    returns -1 having created no process: [fork] has not been called and
    nothing has been waited for. *)
Theorem pipe_failure_spawns_nothing (os : OS) (pipeline : list Words)
        (w : World) (j : nat) :
  j < List.length pipeline - 1 ->
  sys_pipe os (pipe_calls w + j) = None ->
  fst (Executor.runPipeline os pipeline w) = (-1)%Z
  /\ spawned (snd (Executor.runPipeline os pipeline w)) = spawned w
  /\ fork_calls (snd (Executor.runPipeline os pipeline w)) = fork_calls w
  /\ reaped (snd (Executor.runPipeline os pipeline w)) = reaped w.
Proof.
  intros Hj Hfail. unfold Executor.runPipeline.
  destruct pipeline as [|st rest]; [simpl in Hj; lia|].
  cbn [vec_empty].
  destruct (createPipes_frame os (List.length (st :: rest) - 1) [] w)
    as (_ & Hs & Hf & Hr).
  destruct (Executor.createPipes os (List.length (st :: rest) - 1) [] w)
    as [[fds|] w1] eqn:Ec.
  - exfalso. apply createPipes_some in Ec as (new & _ & _ & _ & _ & _ & Hall).
    exact (Hall j Hj Hfail).
  - cbn [fst snd] in *. repeat split; assumption.
Qed.

Lemma pipe_failure_spawns_nothing_witness :
  fst (Executor.runPipeline os_second_pipe_fails
         [["a"]; ["b"]; ["c"]] world0) = (-1)%Z
  /\ spawned (snd (Executor.runPipeline os_second_pipe_fails
                     [["a"]; ["b"]; ["c"]] world0)) = spawned world0.
Proof.
  destruct (pipe_failure_spawns_nothing os_second_pipe_fails
              [["a"]; ["b"]; ["c"]] world0 1) as (H1 & H2 & _).
  - simpl; lia.
  - reflexivity.
  - split; [exact H1|exact H2].
Defined.

(** X22.  When the spawning loop ends normally, it has created exactly
    one process for every Stage that holds a command and none for the
    others: the new processes carry, in order, the positions of those
    Stages, and their pids are the ones handed to the wait loop. *)
Theorem spawn_one_process_per_command (os : OS) (n : nat) (fds : list Z)
        (stages : list Words) (idx : nat) (pids : list Z) (w : World)
        (pids' : list Z) (w' : World) :
  Executor.spawnStages os n fds stages idx pids w = (Some pids', w') ->
  exists procs,
    spawned w' = spawned w ++ procs
    /\ pids' = pids ++ map pid procs
    /\ map stage procs = command_positions stages idx
    /\ fork_calls w' = fork_calls w + List.length procs.
Proof.
  intros H. apply spawnStages_some in H as (procs & H1 & H2 & H3 & _ & H5).
  exists procs. repeat split; assumption.
Qed.

Lemma spawn_one_process_per_command_witness :
  exists procs,
    spawned (snd (Executor.spawnStages os_sample 3 [3; 4; 5; 6]%Z
                    [["ls"]; []; ["wc"]] 0 [] world0))
    = spawned world0 ++ procs
    /\ [100; 101]%Z = [] ++ map pid procs
    /\ map stage procs = command_positions [["ls"]; []; ["wc"]] 0
    /\ fork_calls (snd (Executor.spawnStages os_sample 3 [3; 4; 5; 6]%Z
                          [["ls"]; []; ["wc"]] 0 [] world0))
       = fork_calls world0 + List.length procs.
Proof.
  apply (spawn_one_process_per_command os_sample 3 [3; 4; 5; 6]%Z
           [["ls"]; []; ["wc"]] 0 [] world0 [100; 101]%Z).
  vm_compute. reflexivity.
Defined.

Lemma spawnStages_none_open_fds (os : OS) (n : nat) (fds : list Z)
      (stages : list Words) :
  forall idx pids w w',
    Executor.spawnStages os n fds stages idx pids w = (None, w') ->
    forall fd, In fd (open_fds w') <-> In fd (open_fds w) /\ ~ In fd fds.
Proof.
  induction stages as [|st rest IH]; intros idx pids w w' H fd;
    cbn [Executor.spawnStages] in H; [discriminate|].
  destruct (extractRedirections st) as [argv r].
  destruct (vec_empty argv); [exact (IH _ _ _ _ H fd)|].
  destruct (sys_fork os (fork_calls w)) as [p|].
  - exact (IH _ _ _ _ H fd).
  - injection H as <-.
    exact (closeAll_open_fds_iff fds
             (write_diag (Perror "fork") (failed_fork w)) fd).
Qed.

(** X23.  Once its pipes are created, [runPipeline] holds two
    descriptors for each Stage but the first and has closed them all when
    it returns, after a failed [fork] as well as after the wait: the
    descriptors open afterwards are those that were open before and are
    not among the pipes'. *)
Theorem pipes_closed_on_return (os : OS) (pipeline : list Words) (w : World)
        (pipefds : list Z) (w1 : World) :
  pipeline <> [] ->
  Executor.createPipes os (List.length pipeline - 1) [] w = (Some pipefds, w1) ->
  List.length pipefds = 2 * (List.length pipeline - 1)
  /\ forall fd,
      In fd (open_fds (snd (Executor.runPipeline os pipeline w)))
      <-> In fd (open_fds w) /\ ~ In fd pipefds.
Proof.
  intros Hne Hc. pose proof Hc as Hc'.
  apply createPipes_some in Hc' as (new & Hfds & Hlen & Hopen & _).
  cbn [app] in Hfds. subst new. split; [exact Hlen|].
  intros fd. unfold Executor.runPipeline.
  destruct pipeline as [|st rest]; [contradiction|]. cbn [vec_empty].
  rewrite Hc.
  destruct (Executor.spawnStages os (List.length (st :: rest)) pipefds
              (st :: rest) 0 [] w1) as [[pids|] w2] eqn:Es.
  - apply spawnStages_some in Es as (procs & _ & _ & _ & Ho & _).
    destruct (waitAll_frame os pids 0%Z (Executor.closeAll pipefds w2))
      as (_ & Hw).
    destruct (Executor.waitAll os pids 0 (Executor.closeAll pipefds w2))
      as [status w4]. cbn [snd] in Hw.
    assert (E : open_fds (snd (if WIFEXITED os status
                               then (WEXITSTATUS os status, w4)
                               else ((-1)%Z, w4)))
                = open_fds (Executor.closeAll pipefds w2)).
    { destruct (WIFEXITED os status); exact Hw. }
    rewrite E, closeAll_open_fds_iff, Ho, Hopen, in_app_iff. tauto.
  - cbn [snd]. rewrite (spawnStages_none_open_fds _ _ _ _ _ _ _ _ Es fd).
    rewrite Hopen, in_app_iff. tauto.
Qed.

Lemma pipes_closed_on_return_witness :
  List.length [3; 4]%Z = 2 * (List.length [["ls"]; ["wc"]] - 1)
  /\ forall fd,
      In fd (open_fds (snd (Executor.runPipeline os_sample
                              [["ls"]; ["wc"]] world0)))
      <-> In fd (open_fds world0) /\ ~ In fd [3; 4]%Z.
Proof.
  apply (pipes_closed_on_return os_sample [["ls"]; ["wc"]] world0 [3; 4]%Z
           (opened_pipe 3 4 world0)).
  - discriminate.
  - vm_compute. reflexivity.
Defined.

(* ================================================================= *)
(** ** The child *)

Section ChildFacts.

Import Executor.
Local Open Scope child_scope.

Variable os : OS.

Lemma bind_inr_inv {A B : Type} (m : Child A) (f : A -> Child B) (b : B) :
  snd (bind m f) = inr b ->
  exists a, snd m = inr a /\ snd (f a) = inr b
            /\ fst (bind m f) = fst m ++ fst (f a).
Proof.
  destruct m as [t [code|a]]; cbn [bind snd]; [discriminate|].
  intros H. exists a. cbn [fst snd]. destruct (f a) as [t' r].
  cbn [fst snd] in *. repeat split; assumption.
Qed.

Lemma closeAllC_run (fds : list Z) : closeAllC fds = (map Close fds, inr tt).
Proof.
  induction fds as [|fd rest IH]; [reflexivity|].
  cbn [closeAllC]. rewrite IH. reflexivity.
Qed.

(** A child body that does not leave through [_exit] has closed every
    pipe descriptor, and ended on the [execvp] of the Stage's command. *)
Lemma childBody_execs (idx n : nat) (fds : list Z) (argv : Words)
      (r : RedirectionInfo) (e : ChildEnd) :
  snd (childBody os idx n fds argv r) = inr e ->
  e = Execs (argv0 argv) argv
  /\ sys_execvp os (argv0 argv) argv = true
  /\ (forall fd, In fd fds -> In (Close fd) (fst (childBody os idx n fds argv r)))
  /\ exists before,
      fst (childBody os idx n fds argv r)
      = before ++ [Execvp (argv0 argv) argv].
Proof.
  unfold childBody. intros H.
  apply bind_inr_inv in H as (a1 & H1 & H & E1). rewrite E1. clear E1.
  apply bind_inr_inv in H as (a2 & H2 & H & E2). rewrite E2. clear E2.
  apply bind_inr_inv in H as (a3 & H3 & H & E3). rewrite E3. clear E3.
  apply bind_inr_inv in H as (a4 & H4 & H & E4). rewrite E4. clear E4.
  apply bind_inr_inv in H as (a5 & H5 & H & E5). rewrite E5. clear E5.
  apply bind_inr_inv in H as (a6 & H6 & H & E6). rewrite E6. clear E6.
  destruct (sys_execvp os (argv0 argv) argv) eqn:Ex; [|discriminate H].
  cbn [ret snd fst call] in *. injection H as <-.
  split; [reflexivity|]. split; [reflexivity|]. split.
  - intros fd Hfd. rewrite closeAllC_run. cbn [fst].
    apply in_app_iff; right. apply in_app_iff; right.
    apply in_app_iff; left. apply in_map. exact Hfd.
  - rewrite app_nil_r. rewrite !app_assoc. eexists. reflexivity.
Qed.

End ChildFacts.



(** X25.  A child that runs its program has closed every pipe descriptor
    of the pipeline first, the ones it duplicated included, and the
    [execvp] of the Stage's command, with the argument list as it is, is
    its last call. *)
Theorem child_closes_pipes_before_exec (os : OS) (p : Z) (idx n : nat)
        (fds : list Z) (argv : Words) (r : RedirectionInfo)
        (file : string) (args : Words) :
  ending (Executor.child os p idx n fds argv r) = Execs file args ->
  file = Executor.argv0 argv /\ args = argv
  /\ (forall fd, In fd fds ->
                 In (Close fd) (calls (Executor.child os p idx n fds argv r)))
  /\ exists before,
      calls (Executor.child os p idx n fds argv r)
      = before ++ [Execvp file args]
      /\ forall fd, In fd fds -> In (Close fd) before.
Proof.
  unfold Executor.child.
  pose proof (childBody_execs os idx n fds argv r) as He.
  destruct (Executor.childBody os idx n fds argv r) as [t [code|e]];
    cbn [ending calls snd fst] in *; [discriminate|].
  intros ->. destruct (He _ eq_refl) as (E & _ & Hclose & before & Ht).
  injection E as -> ->.
  split; [reflexivity|]. split; [reflexivity|]. split; [exact Hclose|].
  exists before. split; [exact Ht|].
  intros fd Hfd. specialize (Hclose fd Hfd). rewrite Ht in Hclose.
  apply in_app_iff in Hclose as [H|[H|[]]]; [exact H|discriminate H].
Qed.

Lemma child_closes_pipes_before_exec_witness :
  calls (Executor.child os_sample 101 1 3 [3; 4; 5; 6]%Z ["sort"] no_redirection)
  = [Dup2 3 0; Dup2 6 1; Close 3; Close 4; Close 5; Close 6]
      ++ [Execvp "sort" ["sort"]]
  /\ forall fd, In fd [3; 4; 5; 6]%Z ->
       In (Close fd)
          (calls (Executor.child os_sample 101 1 3 [3; 4; 5; 6]%Z ["sort"]
                    no_redirection)).
Proof.
  destruct (child_closes_pipes_before_exec os_sample 101 1 3 [3; 4; 5; 6]%Z
              ["sort"] no_redirection "sort" ["sort"] eq_refl)
    as (_ & _ & H & _).
  split; [vm_compute; reflexivity|exact H].
Defined.

(* ================================================================= *)
(** ** Waiting, and what a pipeline leaves to the interpreter *)

(** X26.  The wait loop asks for every pid, in order, whether the earlier
    waits succeeded or not: the pids collected are exactly those for which
    [waitpid] succeeds, and each failure adds one [perror("waitpid")] to
    the error stream and nothing else. *)
Theorem waitAll_waits_for_all (os : OS) (pids : list Z) :
  forall status w,
    reaped (snd (Executor.waitAll os pids status w))
    = reaped w ++ filter (waitable os) pids
    /\ cerr (snd (Executor.waitAll os pids status w))
       = cerr w
         ++ repeat (Perror "waitpid")
              (List.length (filter (fun p => negb (waitable os p)) pids))
    /\ spawned (snd (Executor.waitAll os pids status w)) = spawned w.
Proof.
  induction pids as [|p rest IH]; intros status w.
  - cbn. rewrite !app_nil_r. repeat split.
  - cbn [Executor.waitAll filter].
    destruct (sys_waitpid os p) as [st|] eqn:Ew.
    + assert (Hp : waitable os p = true) by (unfold waitable; rewrite Ew; reflexivity).
      rewrite Hp. cbn [negb].
      destruct (IH st (waited p w)) as (H1 & H2 & H3).
      rewrite H1, H2, H3. cbn [waited reaped cerr spawned].
      rewrite <- app_assoc. repeat split.
    + assert (Hp : waitable os p = false) by (unfold waitable; rewrite Ew; reflexivity).
      rewrite Hp. cbn [negb].
      destruct (IH status (write_diag (Perror "waitpid") w)) as (H1 & H2 & H3).
      rewrite H1, H2, H3. cbn [write_diag reaped cerr spawned List.length repeat].
      rewrite <- app_assoc. repeat split.
Qed.

(** X27.  [runPipeline] leaves the interpreter's own state alone: its
    working directory and what it has written to standard output are the
    same afterwards.  A line of two or more Stages goes to [runPipeline]
    as a whole, so a [cd] or an [echo] that is a Stage of such a line has
    no effect in the interpreter. *)
Theorem pipeline_keeps_shell_state :
  (forall os pipeline w,
      same_shell_state w (snd (Executor.runPipeline os pipeline w)))
  /\ (forall os line w,
         2 <= List.length (splitIntoPipeline (Tokenizer.tokenize line)) ->
         mainBody os line w
         = (Continue,
            snd (Executor.runPipeline os
                   (splitIntoPipeline (Tokenizer.tokenize line)) w))
         /\ same_shell_state w (snd (mainBody os line w))).
Proof.
  assert (Hrun : forall os pipeline w,
             same_shell_state w (snd (Executor.runPipeline os pipeline w))).
  { intros os pipeline w. unfold Executor.runPipeline.
    destruct (vec_empty pipeline); [split; reflexivity|].
    destruct (createPipes_frame os (List.length pipeline - 1) [] w)
      as ((Hc1 & Hc2) & _).
    destruct (Executor.createPipes os (List.length pipeline - 1) [] w)
      as [[fds|] w1]; cbn [snd] in *; [|split; assumption].
    destruct (spawnStages_frame os (List.length pipeline) fds pipeline 0 [] w1)
      as ((Hs1 & Hs2) & _).
    destruct (Executor.spawnStages os (List.length pipeline) fds pipeline 0 [] w1)
      as [[pids|] w2]; cbn [snd] in *;
      [|split; [rewrite Hs1|rewrite Hs2]; assumption].
    destruct (closeAll_frame fds w2) as ((Hk1 & Hk2) & _).
    destruct (waitAll_frame os pids 0%Z (Executor.closeAll fds w2))
      as ((Hw1 & Hw2) & _).
    destruct (Executor.waitAll os pids 0 (Executor.closeAll fds w2))
      as [status w4]. cbn [snd] in *.
    assert (E : snd (if WIFEXITED os status
                     then (WEXITSTATUS os status, w4)
                     else ((-1)%Z, w4)) = w4)
      by (destruct (WIFEXITED os status); reflexivity).
    rewrite E. split; congruence. }
  split; [exact Hrun|].
  intros os line w Hlen.
  assert (Hm : mainBody os line w
               = (Continue,
                  snd (Executor.runPipeline os
                         (splitIntoPipeline (Tokenizer.tokenize line)) w))).
  { unfold mainBody.
    destruct (str_empty (trim line)) eqn:Hb.
    { rewrite (blank_line_no_tokens line Hb) in Hlen. simpl in Hlen. lia. }
    destruct (is_bare_exit (Tokenizer.tokenize line)) eqn:Hx.
    { apply is_bare_exit_iff in Hx. rewrite Hx in Hlen. simpl in Hlen. lia. }
    destruct (splitIntoPipeline (Tokenizer.tokenize line)) as [|s1 [|s2 l]];
      cbn [List.length] in Hlen; try lia.
    reflexivity. }
  split; [exact Hm|]. rewrite Hm. cbn [snd]. apply Hrun.
Qed.

Lemma pipeline_keeps_shell_state_witness :
  mainBody os_sample "cd /tmp | echo hi" world0
  = (Continue,
     snd (Executor.runPipeline os_sample
            (splitIntoPipeline (Tokenizer.tokenize "cd /tmp | echo hi")) world0))
  /\ same_shell_state world0 (snd (mainBody os_sample "cd /tmp | echo hi" world0)).
Proof.
  destruct pipeline_keeps_shell_state as [_ H].
  apply (H os_sample "cd /tmp | echo hi" world0).
  vm_compute. lia.
Defined.

(** X28.  A line that holds operators other than [|] and nothing else,
    such as [;], [& ;] or [>], is a no-op: the iteration ends with the
    world as it was. *)
Theorem operators_only_line_is_noop (os : OS) (line : string) (w : World) :
  existsb is_pipe (Tokenizer.tokenize line) = false ->
  word_texts (Tokenizer.tokenize line) = [] ->
  mainBody os line w = (Continue, w).
Proof.
  intros Hp Hw. unfold mainBody.
  destruct (str_empty (trim line)); [reflexivity|].
  destruct (is_bare_exit (Tokenizer.tokenize line)) eqn:Hx.
  { apply is_bare_exit_iff in Hx. rewrite Hx in Hw. discriminate Hw. }
  assert (Hs : splitIntoPipeline (Tokenizer.tokenize line) = []).
  { apply split_pipe_free. split; assumption. }
  rewrite Hs. reflexivity.
Qed.

Lemma operators_only_line_is_noop_witness :
  mainBody os_sample "; & >> <" world0 = (Continue, world0).
Proof.
  apply (operators_only_line_is_noop os_sample "; & >> <" world0);
    vm_compute; reflexivity.
Defined.

(** X29.  When a [fork] fails, [runPipeline] returns -1 at once: it
    reports the failure and waits for none of the children it has already
    created. *)
Theorem fork_failure_waits_for_nothing (os : OS) (pipeline : list Words)
        (w : World) (pipefds : list Z) (w1 w2 : World) :
  Executor.createPipes os (List.length pipeline - 1) [] w = (Some pipefds, w1) ->
  Executor.spawnStages os (List.length pipeline) pipefds pipeline 0 [] w1
    = (None, w2) ->
  Executor.runPipeline os pipeline w = ((-1)%Z, w2)
  /\ reaped w2 = reaped w.
Proof.
  intros Hc Hs. unfold Executor.runPipeline.
  destruct pipeline as [|st rest]; [discriminate Hs|]. cbn [vec_empty].
  rewrite Hc, Hs. split; [reflexivity|].
  destruct (createPipes_frame os (List.length (st :: rest) - 1) [] w)
    as (_ & _ & _ & Hr1).
  destruct (spawnStages_frame os (List.length (st :: rest)) pipefds
              (st :: rest) 0 [] w1) as (_ & Hr2).
  rewrite Hc in Hr1. rewrite Hs in Hr2. cbn [snd] in *. congruence.
Qed.

Lemma fork_failure_waits_for_nothing_witness :
  Executor.runPipeline os_second_fork_fails [["a"]; ["b"]] world0
  = ((-1)%Z,
     snd (Executor.spawnStages os_second_fork_fails 2 [3; 4]%Z
            [["a"]; ["b"]] 0 [] (opened_pipe 3 4 world0)))
  /\ reaped (snd (Executor.spawnStages os_second_fork_fails 2 [3; 4]%Z
                    [["a"]; ["b"]] 0 [] (opened_pipe 3 4 world0)))
     = reaped world0.
Proof.
  apply (fork_failure_waits_for_nothing os_second_fork_fails [["a"]; ["b"]]
           world0 [3; 4]%Z (opened_pipe 3 4 world0)).
  - vm_compute. reflexivity.
  - vm_compute. reflexivity.
Defined.
